(** * Bizi usage aggregation: a shallow embedding of [pb_02_bizi.py]

    The registry of per-user counters is a Python list of [UsuarioBizi]
    named tuples kept in increasing order of [id]; it is searched by
    bisection ([buscar]), extended in place ([ubicar]), filled from the
    lines of a usage file ([obtener_usos_por_usuario_from_file]) and
    partially ordered by number of uses ([ordenar]).

    Python integers are unbounded, so identifiers, counters and list
    indices are all [Z].  Exceptions are modelled by a small error monad;
    in-place mutation of the list is modelled by passing the list through. *)

From Stdlib Require Import ZArith Lia String Ascii.
From Stdlib Require Import DecimalString DecimalPos DecimalZ.
From stdpp Require Import base tactics option list list_numbers sorting.
From Equations Require Import Equations.

Local Open Scope Z_scope.

(** ** Exceptions *)

Inductive excepcion : Type :=
| IndexError
| ValueError.

Inductive resultado (A : Type) : Type :=
| Ok (a : A)
| Raise (e : excepcion).

Arguments Ok {A} a.
Arguments Raise {A} e.

Definition ligar {A B : Type} (c : resultado A) (k : A -> resultado B) : resultado B :=
  match c with
  | Ok a => k a
  | Raise e => Raise e
  end.

Notation "'let*' x ':=' c 'in' k" := (ligar c (fun x => k))
  (at level 10, x pattern, c at level 100, k at level 200).

(** ** Python list primitives, with integer indices *)

Definition len {A : Type} (l : list A) : Z := Z.of_nat (length l).

(** [l[i]]: a negative index counts from the end; outside
    [-len l <= i < len l] the access raises [IndexError]. *)
Definition getitem {A : Type} (l : list A) (i : Z) : resultado A :=
  let j := if i <? 0 then i + len l else i in
  if (0 <=? j) && (j <? len l) then
    match l !! Z.to_nat j with
    | Some x => Ok x
    | None => Raise IndexError
    end
  else Raise IndexError.

(** [l[i] = x], same index rule. *)
Definition setitem {A : Type} (l : list A) (i : Z) (x : A) : resultado (list A) :=
  let j := if i <? 0 then i + len l else i in
  if (0 <=? j) && (j <? len l) then Ok (<[Z.to_nat j := x]> l)
  else Raise IndexError.

(** [l.insert(i, x)]: never raises; the index is clamped into [0, len l]. *)
Definition list_insert {A : Type} (l : list A) (i : Z) (x : A) : list A :=
  let j := if i <? 0 then Z.max 0 (i + len l) else Z.min i (len l) in
  take (Z.to_nat j) l ++ x :: drop (Z.to_nat j) l.

(** [range(a, b)] *)
Definition range (a b : Z) : list Z := seqZ a (b - a).

(** ** Data model *)

Record UsuarioBizi : Type := mkUsuarioBizi {
  id : Z;
  num_usos_traslado : Z;
  num_usos_circular : Z
}.

Record UsoBizi : Type := mkUsoBizi {
  id_usuario : Z;
  estacion_retirada : Z;
  estacion_devolucion : Z
}.

Definition DELIMITADOR : ascii := ";"%char.
Definition NUM_MOSTRAR : Z := 15.

(** ** [buscar]: bisection over the registry *)

(** The [while inf < sup] loop; it returns the final value of [inf]. *)
Equations? buscar_mientras (usuarios : list UsuarioBizi) (id_usuario : Z)
    (inf sup : Z) : resultado Z by wf (Z.to_nat (sup - inf)) lt :=
  buscar_mientras usuarios id_usuario inf sup with Z_lt_dec inf sup := {
    | right _ => Ok inf
    | left _ with getitem usuarios ((inf + sup) `div` 2) := {
      | Raise e => Raise e
      | Ok u with id_usuario >? id u := {
        | true => buscar_mientras usuarios id_usuario ((inf + sup) `div` 2 + 1) sup
        | false => buscar_mientras usuarios id_usuario inf ((inf + sup) `div` 2) } } }.
Proof.
  all: pose proof (Z.div_mod (inf + sup) 2 ltac:(lia));
    pose proof (Z.mod_pos_bound (inf + sup) 2 ltac:(lia)); lia.
Qed.

Definition buscar (usuarios : list UsuarioBizi) (id_usuario : Z)
    : resultado (bool * Z) :=
  if len usuarios =? 0 then Ok (false, 0)
  else
    let* inf := buscar_mientras usuarios id_usuario 0 (len usuarios - 1) in
    let* u := getitem usuarios inf in
    Ok (id_usuario =? id u, inf).

(** ** [ubicar]: locate a user or insert it *)

(** The list is mutated in place by [insert]; the model returns the list
    after the call together with the returned index.  The [and] of line 101
    is short-circuited: the element is read only when the index test holds. *)
Definition ubicar (usuarios : list UsuarioBizi) (id_usuario : Z)
    : resultado (list UsuarioBizi * Z) :=
  let* (esta, posicion) := buscar usuarios id_usuario in
  if (esta : bool) then Ok (usuarios, posicion)
  else
    let* al_final :=
      (if posicion =? len usuarios - 1 then
         let* u := getitem usuarios posicion in Ok (id_usuario >? id u)
       else Ok false) in
    let posicion := if (al_final : bool) then posicion + 1 else posicion in
    Ok (list_insert usuarios posicion (mkUsuarioBizi id_usuario 0 0), posicion).

(** ** Counters *)

Definition incrementar_traslados (usuario : UsuarioBizi) : UsuarioBizi :=
  mkUsuarioBizi (id usuario) (num_usos_traslado usuario + 1) (num_usos_circular usuario).

Definition incrementar_circulares (usuario : UsuarioBizi) : UsuarioBizi :=
  mkUsuarioBizi (id usuario) (num_usos_traslado usuario) (num_usos_circular usuario + 1).

Definition num_usos_totales (usuario : UsuarioBizi) : Z :=
  num_usos_traslado usuario + num_usos_circular usuario.

(** ** Reading the usage file *)

(** [s.split(sep)] for a one-character separator: every occurrence of the
    separator cuts, so the result always has at least one field. *)
Fixpoint split (sep : ascii) (s : string) : list string :=
  match s with
  | EmptyString => [EmptyString]
  | String c resto =>
      if Ascii.eqb c sep then EmptyString :: split sep resto
      else match split sep resto with
           | campo :: campos => String c campo :: campos
           | [] => [String c EmptyString]
           end
  end.

(** The loop body of [obtener_usos_por_usuario_from_file] once the line has
    been converted: locate the user and replace its record by one with the
    matching counter incremented. *)
Definition contabilizar (usuarios : list UsuarioBizi) (uso : UsoBizi)
    : resultado (list UsuarioBizi) :=
  let* (usuarios, indice) := ubicar usuarios (id_usuario uso) in
  if estacion_retirada uso =? estacion_devolucion uso then
    let* u := getitem usuarios indice in
    setitem usuarios indice (incrementar_circulares u)
  else
    let* u := getitem usuarios indice in
    setitem usuarios indice (incrementar_traslados u).

Section Lectura.

(** Python's built-in [int] applied to a [str]: [None] stands for the
    [ValueError] it raises on text that is not an integer literal. *)
Variable int : string -> option Z.

Definition int_de (s : string) : resultado Z :=
  match int s with
  | Some z => Ok z
  | None => Raise ValueError
  end.

(** Arguments are evaluated left to right: each field is indexed and
    converted before the next one is touched. *)
Definition convertir (linea : string) : resultado UsoBizi :=
  let elementos := split DELIMITADOR linea in
  let* e0 := getitem elementos 0 in
  let* i0 := int_de e0 in
  let* e2 := getitem elementos 2 in
  let* i2 := int_de e2 in
  let* e4 := getitem elementos 4 in
  let* i4 := int_de e4 in
  Ok (mkUsoBizi i0 i2 i4).

(** The [for linea in f] loop. *)
Fixpoint para_cada_linea (usuarios : list UsuarioBizi) (lineas : list string)
    : resultado (list UsuarioBizi) :=
  match lineas with
  | [] => Ok usuarios
  | linea :: resto =>
      let* uso := convertir linea in
      let* usuarios := contabilizar usuarios uso in
      para_cada_linea usuarios resto
  end.

(** The file is the list of its lines; [f.readline()] consumes the header
    (nothing, on an empty file) and the loop iterates over the rest. *)
Definition obtener_usos_por_usuario_from_file (f : list string)
    : resultado (list UsuarioBizi) :=
  para_cada_linea [] (tail f).

End Lectura.

(** ** Partial selection of the most active users *)

(** The [for i in range(indice_inicial + 1, len(usuarios))] loop, carrying
    [indice_del_mayor] and [usos_del_mayor]. *)
Fixpoint mayor_para (usuarios : list UsuarioBizi) (rango : list Z)
    (indice_del_mayor usos_del_mayor : Z) : resultado Z :=
  match rango with
  | [] => Ok indice_del_mayor
  | i :: resto =>
      let* u := getitem usuarios i in
      if num_usos_totales u >? usos_del_mayor then
        let* m := getitem usuarios i in
        mayor_para usuarios resto i (num_usos_totales m)
      else mayor_para usuarios resto indice_del_mayor usos_del_mayor
  end.

Definition buscar_indice_del_mayor (usuarios : list UsuarioBizi)
    (indice_inicial : Z) : resultado Z :=
  let indice_del_mayor := indice_inicial in
  let* u := getitem usuarios indice_del_mayor in
  mayor_para usuarios (range (indice_inicial + 1) (len usuarios))
    indice_del_mayor (num_usos_totales u).

(** The tuple assignment of lines 255-258: the right-hand side is read
    first ([usuarios[indice_del_mayor]], then [usuarios[i]]), then slot [i]
    and slot [indice_del_mayor] are written in that order. *)
Definition intercambiar (usuarios : list UsuarioBizi) (i indice_del_mayor : Z)
    : resultado (list UsuarioBizi) :=
  let* a := getitem usuarios indice_del_mayor in
  let* b := getitem usuarios i in
  let* usuarios := setitem usuarios i a in
  setitem usuarios indice_del_mayor b.

Fixpoint ordenar_para (usuarios : list UsuarioBizi) (rango : list Z)
    : resultado (list UsuarioBizi) :=
  match rango with
  | [] => Ok usuarios
  | i :: resto =>
      let* indice_del_mayor := buscar_indice_del_mayor usuarios i in
      let* usuarios := intercambiar usuarios i indice_del_mayor in
      ordenar_para usuarios resto
  end.

(** [ordenar] returns [None] in Python and mutates its argument; the model
    returns the list after the call. *)
Definition ordenar (usuarios : list UsuarioBizi) (num_ordenar : Z)
    : resultado (list UsuarioBizi) :=
  ordenar_para usuarios (range 0 (Z.min num_ordenar (len usuarios))).

(** ** Specification vocabulary *)

(** The registry invariant: strictly increasing by [id] (hence no
    duplicate identifiers). *)
Definition creciente (l : list UsuarioBizi) : Prop :=
  StronglySorted (fun u v => id u < id v) l.

Definition presente (x : Z) (l : list UsuarioBizi) : Prop :=
  exists u, u ∈ l /\ id u = x.

(** The insertion point in the spec's words: the position of the first
    element whose [id] is at least [x], or one past the end when there is
    none. *)
Fixpoint punto_de_insercion (l : list UsuarioBizi) (x : Z) : Z :=
  match l with
  | [] => 0
  | u :: resto => if id u <? x then 1 + punto_de_insercion resto x else 0
  end.

(** A sequence of [ubicar] calls on the same registry, the returned
    indices being dropped. *)
Fixpoint ubicar_sucesivos (usuarios : list UsuarioBizi) (ids : list Z)
    : resultado (list UsuarioBizi) :=
  match ids with
  | [] => Ok usuarios
  | x :: resto =>
      let* (usuarios, _) := ubicar usuarios x in
      ubicar_sucesivos usuarios resto
  end.

(** Sum of [num_usos_totales] over the registry. *)
Definition suma_usos (l : list UsuarioBizi) : Z :=
  foldr (fun u acc => num_usos_totales u + acc) 0 l.

(** The record that an event must leave behind, in the spec's words: the
    circular counter goes up by one when both stations coincide, the
    transit counter otherwise; nothing else changes. *)
Definition incremento (uso : UsoBizi) (u : UsuarioBizi) : UsuarioBizi :=
  if estacion_retirada uso =? estacion_devolucion uso then
    {| id := id u;
       num_usos_traslado := num_usos_traslado u;
       num_usos_circular := num_usos_circular u + 1 |}
  else
    {| id := id u;
       num_usos_traslado := num_usos_traslado u + 1;
       num_usos_circular := num_usos_circular u |}.

(** Field [k] of a line, if the line has that many fields. *)
Definition campo (linea : string) (k : nat) : option string :=
  split DELIMITADOR linea !! k.

(** A line is well formed when fields 0, 2 and 4 exist and are integers
    for [int]; it is malformed when it has fewer than five fields or one of
    those three fields is not an integer. *)
Definition bien_formada (int : string -> option Z) (linea : string) : Prop :=
  forall k, k = 0%nat \/ k = 2%nat \/ k = 4%nat ->
    exists s z, campo linea k = Some s /\ int s = Some z.

Definition mal_formada (int : string -> option Z) (linea : string) : Prop :=
  (length (split DELIMITADOR linea) < 5)%nat
  \/ exists k s, (k = 0%nat \/ k = 2%nat \/ k = 4%nat)
       /\ campo linea k = Some s /\ int s = None.

(** An instance of [int] for running the model on concrete lines: the
    unsigned ASCII decimal numerals.  Python's [int] accepts these with the
    same value (and more: blanks around, a sign, underscores). *)
Definition digito (c : ascii) : option Z :=
  let n := Z.of_nat (nat_of_ascii c) in
  if (48 <=? n) && (n <=? 57) then Some (n - 48) else None.

Fixpoint int_digitos (acc : Z) (s : string) : option Z :=
  match s with
  | EmptyString => Some acc
  | String c resto =>
      match digito c with
      | Some d => int_digitos (10 * acc + d) resto
      | None => None
      end
  end.

Definition int_decimal (s : string) : option Z :=
  match s with
  | EmptyString => None
  | _ => int_digitos 0 s
  end.

(** [j] is the left-most index of [l[i..a)] whose total is maximal. *)
Definition primer_maximo (l : list UsuarioBizi) (i a j : Z) : Prop :=
  i <= j < a
  /\ exists uj, l !! Z.to_nat j = Some uj
     /\ (forall k u, i <= k < a -> l !! Z.to_nat k = Some u ->
          num_usos_totales u <= num_usos_totales uj)
     /\ (forall k u, i <= k < j -> l !! Z.to_nat k = Some u ->
          num_usos_totales u < num_usos_totales uj).

(** Slots [0..a) are fixed: each holds a total at least as large as that
    of every slot from itself to the end of the list. *)
Definition prefijo_fijado (l : list UsuarioBizi) (a : Z) : Prop :=
  forall i j ui uj, 0 <= i < a -> i <= j < len l ->
    l !! Z.to_nat i = Some ui -> l !! Z.to_nat j = Some uj ->
    num_usos_totales uj <= num_usos_totales ui.

(** The [i]-th largest value of a list of totals, counting from [0]: entry
    [i] of the list sorted from largest to smallest, when there is one. *)
Definition i_esimo_mayor (totales : list Z) (i : nat) : option Z :=
  merge_sort Z.ge totales !! i.

(** ** Events seen per user *)

(** The record of identifier [x] in a registry, the first one if several. *)
Fixpoint registro_de (l : list UsuarioBizi) (x : Z) : option UsuarioBizi :=
  match l with
  | [] => None
  | u :: resto => if id u =? x then Some u else registro_de resto x
  end.

(** How many events of a list belong to user [x] and return the bicycle to
    the station it was taken from, and how many to a different one. *)
Fixpoint circulares_de (x : Z) (usos : list UsoBizi) : Z :=
  match usos with
  | [] => 0
  | uso :: resto =>
      (if (id_usuario uso =? x)
          && (estacion_retirada uso =? estacion_devolucion uso)
       then 1 else 0) + circulares_de x resto
  end.

Fixpoint traslados_de (x : Z) (usos : list UsoBizi) : Z :=
  match usos with
  | [] => 0
  | uso :: resto =>
      (if (id_usuario uso =? x)
          && negb (estacion_retirada uso =? estacion_devolucion uso)
       then 1 else 0) + traslados_de x resto
  end.

(** What the record of [x] must be after the events [usos], starting from
    the record [o] it had before (if any). *)
Definition acumulado (o : option UsuarioBizi) (x : Z) (usos : list UsoBizi)
    : option UsuarioBizi :=
  match o with
  | Some u =>
      Some (mkUsuarioBizi x (num_usos_traslado u + traslados_de x usos)
                            (num_usos_circular u + circulares_de x usos))
  | None =>
      if bool_decide (x ∈ id_usuario <$> usos) then
        Some (mkUsuarioBizi x (traslados_de x usos) (circulares_de x usos))
      else None
  end.

(** ** Text primitives of [pb_01_next_day.py] *)

(** [s.replace(viejo, nuevo)] for one-character arguments. *)
Fixpoint replace (viejo nuevo : ascii) (s : string) : string :=
  match s with
  | EmptyString => EmptyString
  | String c resto =>
      String (if Ascii.eqb c viejo then nuevo else c) (replace viejo nuevo resto)
  end.

(** [sep.join(l)] *)
Fixpoint join (sep : string) (l : list string) : string :=
  match l with
  | [] => EmptyString
  | [s] => s
  | s :: resto => (s ++ sep ++ join sep resto)%string
  end.

(** The decimal numeral of an integer, with a minus sign when negative. *)
Definition numeral (z : Z) : string := NilZero.string_of_int (Z.to_int z).

(** CPython refuses to turn into text an integer of more than 4300 decimal
    digits (the default of [sys.int_max_str_digits]), that is from
    [10 ^ 4300] on in absolute value. *)
Definition LIMITE : Z := 10 ^ 4300.

(** [str(z)] for an integer: its numeral, or [None] for the [ValueError]
    raised beyond the limit.  The format specifications of an f-string
    convert an integer under the same limit. *)
Definition str (z : Z) : option string :=
  if Z.abs z <? LIMITE then Some (numeral z) else None.

(** ** [next_date] *)

(** The module raises [ValueError] with a message of its own, or lets
    through the [ValueError] of the built-in [int], recorded with the text
    that was not an integer, or that of the built-in [str]. *)
Inductive error_fecha : Type :=
| ValueErrorMensaje (mensaje : string)
| ValueErrorInt (texto : string)
| ValueErrorStr.

Inductive salida (A : Type) : Type :=
| Devuelve (a : A)
| Lanza (e : error_fecha).

Arguments Devuelve {A} a.
Arguments Lanza {A} e.

Section Fecha.

(** Python's built-in [int] on a [str], as in [Lectura]. *)
Variable int : string -> option Z.

(** The three tokens are converted in the order year, month, day, each
    just before its own range check.  The list is matched against three
    elements, which is the [len(tks) != 3] test followed by the accesses
    [tks[2]], [tks[1]] and [tks[0]].  The texts [str(t)], and [str(d)],
    [str(m)], [str(y)] in that order, are built before the message or the
    result that holds them. *)
Definition next_date (dt : string) : salida string :=
  let tks := split "-" (replace "." "-" (replace "/" "-" dt)) in
  match tks with
  | [t0; t1; t2] =>
      match int t2 with
      | None => Lanza (ValueErrorInt t2)
      | Some y =>
          if y <=? 1582 then
            Lanza (ValueErrorMensaje "Year must be greater than 1582.")
          else
            match int t1 with
            | None => Lanza (ValueErrorInt t1)
            | Some m =>
                if (m <? 1) || (m >? 12) then
                  Lanza (ValueErrorMensaje "Month must be between 1 and 12.")
                else
                  let t :=
                    if m =? 2 then
                      if y `mod` 400 =? 0 then 29
                      else if y `mod` 100 =? 0 then 28
                      else if y `mod` 4 =? 0 then 29
                      else 28
                    else if (m =? 4) || (m =? 6) || (m =? 9) || (m =? 11) then 30
                    else 31 in
                  match int t0 with
                  | None => Lanza (ValueErrorInt t0)
                  | Some d =>
                      if (d <? 1) || (d >? t) then
                        match str t with
                        | None => Lanza ValueErrorStr
                        | Some st =>
                            Lanza (ValueErrorMensaje
                                     ("Day must be between 1 and " ++ st ++ "."))
                        end
                      else
                        let d := d + 1 in
                        let '(d, m, y) :=
                          if d >? t then
                            let m := m + 1 in
                            if m >? 12 then (1, 1, y + 1) else (1, m, y)
                          else (d, m, y) in
                        match str d with
                        | None => Lanza ValueErrorStr
                        | Some sd =>
                            match str m with
                            | None => Lanza ValueErrorStr
                            | Some sm =>
                                match str y with
                                | None => Lanza ValueErrorStr
                                | Some sy => Devuelve (join "-" [sd; sm; sy])
                                end
                            end
                        end
                  end
            end
      end
  | _ => Lanza (ValueErrorMensaje "Wrong format")
  end.

End Fecha.

(** ** Calendar vocabulary *)

(** The Gregorian leap-year rule. *)
Definition bisiesto (y : Z) : bool :=
  ((y `mod` 4 =? 0) && negb (y `mod` 100 =? 0)) || (y `mod` 400 =? 0).

Definition dias_del_mes (y m : Z) : Z :=
  if m =? 2 then (if bisiesto y then 29 else 28)
  else if (m =? 4) || (m =? 6) || (m =? 9) || (m =? 11) then 30
  else 31.

(** The dates [next_date] is meant for: a year after 1582, a month of the
    year and a day of that month. *)
Definition fecha_valida (d m y : Z) : Prop :=
  1582 < y /\ 1 <= m <= 12 /\ 1 <= d <= dias_del_mes y m.

(** Calendar order on (day, month, year) triples. *)
Definition anterior (a b : Z * Z * Z) : Prop :=
  let '(d1, m1, y1) := a in
  let '(d2, m2, y2) := b in
  y1 < y2 \/ (y1 = y2 /\ (m1 < m2 \/ (m1 = m2 /\ d1 < d2))).

(** The tokens [next_date] works on, and the text it returns for a date. *)
Definition tokens (dt : string) : list string :=
  split "-" (replace "." "-" (replace "/" "-" dt)).

Definition escribe (d m y : Z) : string :=
  (numeral d ++ "-" ++ numeral m ++ "-" ++ numeral y)%string.

(** The day after a valid date. *)
Definition siguiente (d m y : Z) : Z * Z * Z :=
  if d <? dias_del_mes y m then (d + 1, m, y)
  else if m <? 12 then (1, m + 1, y)
  else (1, 1, y + 1).

(** The integers that [str] converts. *)
Definition corto (z : Z) : Prop := Z.abs z < LIMITE.

(** The characters [next_date] takes for separators, and how many of them
    a text holds. *)
Definition es_separador (c : ascii) : bool :=
  Ascii.eqb c "/" || Ascii.eqb c "." || Ascii.eqb c "-".

Fixpoint separadores (s : string) : nat :=
  match s with
  | EmptyString => 0
  | String c resto => ((if es_separador c then 1 else 0) + separadores resto)%nat
  end.

(** Whether a character occurs in a text. *)
Fixpoint contiene (c : ascii) (s : string) : bool :=
  match s with
  | EmptyString => false
  | String a resto => Ascii.eqb a c || contiene c resto
  end.

(** An instance of [int] for running [next_date]: the decimal numerals
    with an optional minus sign, which Python's [int] reads with the same
    value when they have at most 4300 digits.  It is only used on such
    numerals. *)
Definition int_con_signo (s : string) : option Z :=
  option_map Z.of_int (NilZero.int_of_string s).

(** ** Showing the result *)

Definition ANCHO : Z := 10.

(** What [print] writes is modelled by the list of the lines written. *)

Fixpoint espacios (n : nat) : string :=
  match n with
  | O => EmptyString
  | S n => String " " (espacios n)
  end.

(** A text right-aligned in a field of [ancho] characters: blanks are added
    on the left and nothing is ever cut.  This is what the format
    specifications [>{ANCHO}] and, for an integer, [{ANCHO}] do. *)
Definition alinear (ancho : Z) (s : string) : string :=
  (espacios (Z.to_nat (ancho - Z.of_nat (String.length s))) ++ s)%string.

(** [format(z, ">10")] and [format(z, "10")] on an integer. *)
Definition formatear (ancho z : Z) : option string :=
  option_map (alinear ancho) (str z).

(** The four fields are formatted from left to right and the line is
    written only once all four are: an integer beyond the limit of [str]
    ends the call with [ValueError] and nothing written. *)
Definition mostrar_usuario (usuario : UsuarioBizi)
    : list string * option excepcion :=
  match formatear ANCHO (id usuario) with
  | None => ([], Some ValueError)
  | Some c1 =>
      match formatear ANCHO (num_usos_traslado usuario) with
      | None => ([], Some ValueError)
      | Some c2 =>
          match formatear ANCHO (num_usos_circular usuario) with
          | None => ([], Some ValueError)
          | Some c3 =>
              match formatear ANCHO (num_usos_totales usuario) with
              | None => ([], Some ValueError)
              | Some c4 => ([((c1 ++ c2) ++ (c3 ++ c4))%string], None)
              end
          end
      end
  end.

(** The [for] loop of [mostrar]: the lines written, and the exception that
    ended the loop if one did. *)
Fixpoint mostrar_para (usuarios : list UsuarioBizi) (rango : list Z)
    : list string * option excepcion :=
  match rango with
  | [] => ([], None)
  | i :: resto =>
      match getitem usuarios i with
      | Raise e => ([], Some e)
      | Ok u =>
          match mostrar_usuario u with
          | (lineas, Some e) => (lineas, Some e)
          | (lineas, None) =>
              let '(mas, fin) := mostrar_para usuarios resto in
              (lineas ++ mas, fin)
          end
      end
  end.

(** The second [print] converts [len(usuarios)] before it writes. *)
Definition mostrar (usuarios : list UsuarioBizi) (num_mostrar : Z)
    : list string * option excepcion :=
  match str (len usuarios) with
  | None => ([""%string], Some ValueError)
  | Some n =>
      let '(lineas, fin) :=
        mostrar_para usuarios (range 0 (Z.min num_mostrar (len usuarios))) in
      ([""%string;
        ("Número usuarios distintos:" ++ " " ++ n)%string;
        ""%string;
        "   Usuario Traslados  Circular     Total"%string;
        " ========= ========= ========= ========="%string] ++ lineas, fin)
  end.

(** A column as it must read: the numeral of the integer pushed to the
    right of a field of ten characters by blanks, and whole when longer.
    A row: the columns of identifier, transit uses, circular uses and
    total, in that order. *)
Definition columna (z : Z) : string :=
  (espacios (10 - String.length (numeral z)) ++ numeral z)%string.

Definition fila (u : UsuarioBizi) : string :=
  (columna (id u) ++ columna (num_usos_traslado u)
     ++ columna (num_usos_circular u) ++ columna (num_usos_totales u))%string.

(** The records [mostrar_usuario] can write. *)
Definition usuario_corto (u : UsuarioBizi) : Prop :=
  corto (id u) /\ corto (num_usos_traslado u)
  /\ corto (num_usos_circular u) /\ corto (num_usos_totales u).

(** Exceptions of the functions that open the file: [OSError] from [open],
    or one that comes out of the pass. *)
Inductive excepcion_es : Type :=
| OSError
| Propagada (e : excepcion).

Inductive resultado_es (A : Type) : Type :=
| Bien (a : A)
| Mal (e : excepcion_es).

Arguments Bien {A} a.
Arguments Mal {A} e.

Section Ficheros.

Variable int : string -> option Z.

(** [open(nombre_fichero, encoding="utf-8")] followed by reading: the lines
    of the file, or [None] when [open] raises [OSError]. *)
Variable open_utf8 : string -> option (list string).

Definition obtener_usos_por_usuario (nombre_fichero : string)
    : resultado_es (list UsuarioBizi) :=
  match open_utf8 nombre_fichero with
  | None => Mal OSError
  | Some f =>
      match obtener_usos_por_usuario_from_file int f with
      | Ok usuarios => Bien usuarios
      | Raise e => Mal (Propagada e)
      end
  end.

(** The lines written and the exception that ended the call, if any. *)
Definition usos_por_usuario (nombre_fichero : string)
    : list string * option excepcion_es :=
  match obtener_usos_por_usuario nombre_fichero with
  | Mal e => ([], Some e)
  | Bien usuarios =>
      match ordenar usuarios NUM_MOSTRAR with
      | Raise e => ([], Some (Propagada e))
      | Ok usuarios =>
          let '(lineas, fin) := mostrar usuarios NUM_MOSTRAR in
          (lineas, option_map Propagada fin)
      end
  end.

End Ficheros.

(** ** Sample data *)

Definition registro_ejemplo : list UsuarioBizi :=
  [mkUsuarioBizi 10 1 1; mkUsuarioBizi 20 0 1; mkUsuarioBizi 30 2 0].

Definition fichero_ejemplo : list string :=
  ["cabecera"; "10;x;5;y;5"; "10;x;5;y;9"; "20;x;1;y;1"]%string.

Definition registro_descendente : list UsuarioBizi :=
  [mkUsuarioBizi 1 3 0; mkUsuarioBizi 2 2 0; mkUsuarioBizi 3 1 0].

(** Three users tied at three uses, then one with a single use. *)
Definition registro_empatado : list UsuarioBizi :=
  [mkUsuarioBizi 3 3 0; mkUsuarioBizi 5 2 1; mkUsuarioBizi 9 0 3;
   mkUsuarioBizi 12 1 0].

(** A file system with one readable file. *)
Definition disco_ejemplo (nombre : string) : option (list string) :=
  if String.eqb nombre "datos/pruebas.csv" then Some fichero_ejemplo else None.

(** * Properties *)

(** ** List primitives *)

Lemma len_nonneg {A} (l : list A) : 0 <= len l.
Proof. unfold len. lia. Qed.

Lemma len_cons {A} (a : A) (l : list A) : len (a :: l) = 1 + len l.
Proof. unfold len. simpl. lia. Qed.

Lemma getitem_lookup {A} (l : list A) (i : Z) (x : A) :
  0 <= i -> l !! Z.to_nat i = Some x -> getitem l i = Ok x.
Proof.
  intros Hi Hx. unfold getitem.
  pose proof (lookup_lt_Some _ _ _ Hx) as Hlt.
  destruct (Z.ltb_spec i 0); [lia|].
  destruct (Z.leb_spec 0 i); [|lia].
  destruct (Z.ltb_spec i (len l)); [|unfold len in *; lia].
  simpl. by rewrite Hx.
Qed.

Lemma getitem_en_rango {A} (l : list A) (i : Z) :
  0 <= i < len l -> exists x, l !! Z.to_nat i = Some x /\ getitem l i = Ok x.
Proof.
  intros Hi. destruct (lookup_lt_is_Some_2 l (Z.to_nat i)) as [x Hx].
  { unfold len in Hi. lia. }
  exists x. split; [done|]. apply getitem_lookup; [lia|done].
Qed.

Lemma setitem_en_rango {A} (l : list A) (i : Z) (x : A) :
  0 <= i < len l -> setitem l i x = Ok (<[Z.to_nat i := x]> l).
Proof.
  intros Hi. unfold setitem.
  destruct (Z.ltb_spec i 0); [lia|].
  destruct (Z.leb_spec 0 i); [|lia].
  destruct (Z.ltb_spec i (len l)); [|lia]. done.
Qed.

Lemma list_insert_en_rango {A} (l : list A) (i : Z) (x : A) :
  0 <= i <= len l ->
  list_insert l i x = take (Z.to_nat i) l ++ x :: drop (Z.to_nat i) l.
Proof.
  intros Hi. unfold list_insert.
  destruct (Z.ltb_spec i 0); [lia|]. by rewrite Z.min_l by lia.
Qed.

(** ** The insertion point of an increasing list *)

Lemma punto_de_insercion_cotas l x : 0 <= punto_de_insercion l x <= len l.
Proof.
  induction l as [|u l IH]; simpl; [unfold len; simpl; lia|].
  rewrite len_cons. destruct (id u <? x); lia.
Qed.

Lemma creciente_cons_inv u l :
  creciente (u :: l) -> creciente l /\ Forall (fun v => id u < id v) l.
Proof. intros H. by apply StronglySorted_inv in H. Qed.

Lemma creciente_lookup l (i j : nat) a b :
  creciente l -> l !! i = Some a -> l !! j = Some b -> (i < j)%nat ->
  id a < id b.
Proof.
  intros Hs. revert i j. induction l as [|c l IH]; intros i j Hi Hj Hij; [done|].
  apply creciente_cons_inv in Hs as [Hs Hc].
  destruct j as [|j]; [lia|]. simpl in Hj.
  destruct i as [|i]; simpl in Hi.
  - injection Hi as ->. rewrite Forall_forall in Hc.
    apply Hc. by eapply list_elem_of_lookup_2.
  - apply (IH Hs i j); [done|done|lia].
Qed.

(** In an increasing list the elements below [x] are exactly those
    before the insertion point. *)
Lemma menor_sii_antes l x (k : nat) u :
  creciente l -> l !! k = Some u ->
  id u < x <-> Z.of_nat k < punto_de_insercion l x.
Proof.
  intros Hs. revert k. induction l as [|a l IH]; intros k Hk; [done|].
  apply creciente_cons_inv in Hs as [Hs Ha]. simpl.
  pose proof (punto_de_insercion_cotas l x).
  destruct k as [|k]; simpl in Hk.
  - injection Hk as ->. destruct (Z.ltb_spec (id u) x); lia.
  - specialize (IH Hs k Hk).
    destruct (Z.ltb_spec (id a) x); [lia|].
    rewrite Forall_forall in Ha.
    assert (id a < id u) by (apply Ha; eapply list_elem_of_lookup_2; eauto).
    lia.
Qed.

(** ** [buscar] on an increasing registry *)

Lemma buscar_mientras_creciente l x inf sup :
  creciente l -> 0 <= inf <= sup -> sup < len l ->
  inf <= punto_de_insercion l x ->
  punto_de_insercion l x <= sup \/ sup = len l - 1 ->
  buscar_mientras l x inf sup = Ok (Z.min (punto_de_insercion l x) (len l - 1)).
Proof.
  funelim (buscar_mientras l x inf sup); intros Hs Hrango Hsup Hinf Hp.
  all: match goal with
       | |- context [punto_de_insercion ?l ?x] =>
           pose proof (punto_de_insercion_cotas l x) as Hcotas
       end.
  all: try (pose proof (Z.div_mod (inf + sup) 2 ltac:(lia)) as Hdiv;
            pose proof (Z.mod_pos_bound (inf + sup) 2 ltac:(lia)) as Hmod).
  - f_equal. lia.
  - destruct (getitem_en_rango usuarios ((inf + sup) `div` 2)) as (u & _ & Hu);
      [lia|congruence].
  - destruct (getitem_en_rango usuarios ((inf + sup) `div` 2)) as (u' & Hl & Hu);
      [lia|].
    assert (u' = u) as -> by congruence.
    apply (menor_sii_antes _ id_usuario0) in Hl; [|done].
    apply Z.gtb_lt in Heq. apply H; try done; lia.
  - destruct (getitem_en_rango usuarios ((inf + sup) `div` 2)) as (u' & Hl & Hu);
      [lia|].
    assert (u' = u) as -> by congruence.
    apply (menor_sii_antes _ id_usuario0) in Hl; [|done].
    assert (~ id u < id_usuario0) by (rewrite Z.gtb_ltb in Heq; lia).
    apply H; try done; lia.
Qed.

(** Closed form of [buscar] on an increasing registry: the index is the
    insertion point capped at the last position, and the flag tells whether
    the element there carries the searched identifier. *)
Lemma buscar_creciente l x :
  creciente l ->
  exists esta,
    buscar l x = Ok (esta, Z.min (punto_de_insercion l x) (Z.max 0 (len l - 1)))
    /\ (esta = true <-> presente x l)
    /\ (esta = true ->
        exists u, l !! Z.to_nat (punto_de_insercion l x) = Some u /\ id u = x).
Proof.
  intros Hs. unfold buscar.
  pose proof (punto_de_insercion_cotas l x) as Hp.
  pose proof (len_nonneg l) as Hn.
  destruct (Z.eqb_spec (len l) 0) as [H0|H0].
  { exists false. replace (punto_de_insercion l x) with 0 by lia.
    split; [f_equal; f_equal; lia|]. split; [|done].
    split; [done|]. intros (u & Hu & _).
    destruct l; [by apply elem_of_nil in Hu|]. rewrite len_cons in H0.
    pose proof (len_nonneg l). lia. }
  rewrite buscar_mientras_creciente by (try done; lia). simpl.
  rewrite (Z.max_r 0) by lia.
  remember (Z.min (punto_de_insercion l x) (len l - 1)) as r eqn:Hr.
  destruct (getitem_en_rango l r) as (u & Hl & Hu); [lia|].
  rewrite Hu. simpl. exists (x =? id u). split; [done|].
  pose proof (menor_sii_antes l x _ u Hs Hl) as Hmenor.
  assert (Hpres : (x =? id u) = true -> punto_de_insercion l x = r /\ id u = x).
  { intros Heq%Z.eqb_eq. lia. }
  split; [split|].
  - intros Heq. exists u. split; [by eapply list_elem_of_lookup_2|].
    apply Z.eqb_eq in Heq. lia.
  - intros (v & Hv & Hid). apply list_elem_of_lookup_1 in Hv as [k Hk].
    pose proof (lookup_lt_Some _ _ _ Hk) as Hklt.
    pose proof (menor_sii_antes l x _ v Hs Hk) as Hkmenor.
    assert (r = punto_de_insercion l x) by (unfold len in *; lia).
    apply Z.eqb_eq.
    destruct (decide (Z.to_nat r = k)) as [<-|Hne]; [congruence|].
    assert (Z.to_nat r < k)%nat by lia.
    pose proof (creciente_lookup _ _ _ _ _ Hs Hl Hk ltac:(done)) as Hlt.
    lia.
  - intros Heq. destruct (Hpres Heq) as [-> ?]. by exists u.
Qed.

(** ** [ubicar] on an increasing registry *)

Lemma creciente_particion l x :
  creciente l ->
  Forall (fun u => id u < x) (take (Z.to_nat (punto_de_insercion l x)) l)
  /\ Forall (fun u => x <= id u) (drop (Z.to_nat (punto_de_insercion l x)) l).
Proof.
  intros Hs. pose proof (punto_de_insercion_cotas l x) as Hp.
  split; apply Forall_lookup; intros k u Hk.
  - apply lookup_take_Some in Hk as [Hk Hlt].
    apply (menor_sii_antes l x k u Hs Hk). lia.
  - rewrite lookup_drop in Hk.
    pose proof (menor_sii_antes l x _ u Hs Hk). lia.
Qed.

Lemma ausente_distinto x l u : ~ presente x l -> u ∈ l -> id u <> x.
Proof. intros Hx Hu Hid. apply Hx. by exists u. Qed.

Lemma classic_presente x l : presente x l \/ ~ presente x l.
Proof.
  unfold presente. induction l as [|u l [IH|IH]].
  - right. intros (u & Hu & _). by apply elem_of_nil in Hu.
  - left. destruct IH as (v & Hv & Hid). exists v. split; [by right|done].
  - destruct (decide (id u = x)) as [Heq|Hne].
    + left. exists u. split; [by left|done].
    + right. intros (v & [->|Hv]%elem_of_cons & Hid); [done|].
      apply IH. by exists v.
Qed.

Lemma ubicar_presente l x :
  creciente l -> presente x l ->
  ubicar l x = Ok (l, punto_de_insercion l x)
  /\ exists u, l !! Z.to_nat (punto_de_insercion l x) = Some u /\ id u = x.
Proof.
  intros Hs Hx. destruct (buscar_creciente l x Hs) as (esta & Hb & Hesta & Hu).
  apply Hesta in Hx. subst esta. destruct (Hu eq_refl) as (u & Hl & Hid).
  split; [|by exists u].
  unfold ubicar. rewrite Hb. simpl. do 2 f_equal.
  pose proof (lookup_lt_Some _ _ _ Hl). pose proof (punto_de_insercion_cotas l x).
  unfold len in *. lia.
Qed.

Lemma ubicar_ausente l x :
  creciente l -> ~ presente x l ->
  ubicar l x =
    Ok (take (Z.to_nat (punto_de_insercion l x)) l
          ++ mkUsuarioBizi x 0 0 :: drop (Z.to_nat (punto_de_insercion l x)) l,
        punto_de_insercion l x).
Proof.
  intros Hs Hx. destruct (buscar_creciente l x Hs) as (esta & Hb & Hesta & _).
  destruct esta; [by destruct Hx; apply Hesta|]. clear Hesta.
  pose proof (punto_de_insercion_cotas l x) as Hp.
  pose proof (len_nonneg l) as Hn.
  unfold ubicar. rewrite Hb. simpl.
  remember (Z.min (punto_de_insercion l x) (Z.max 0 (len l - 1))) as r eqn:Hr.
  destruct (Z.eqb_spec r (len l - 1)) as [Hult|Hult]; simpl.
  - destruct (getitem_en_rango l r) as (u & Hl & Hu); [lia|].
    rewrite Hu. simpl.
    pose proof (menor_sii_antes l x _ u Hs Hl) as Hmenor.
    destruct (Z.gtb_spec x (id u)).
    + assert (punto_de_insercion l x = r + 1) as <- by lia.
      by rewrite list_insert_en_rango by lia.
    + assert (punto_de_insercion l x = r) as <- by lia.
      by rewrite list_insert_en_rango by lia.
  - assert (punto_de_insercion l x = r) as <- by lia.
    by rewrite list_insert_en_rango by lia.
Qed.

Lemma creciente_insertar l x :
  creciente l -> ~ presente x l ->
  creciente (take (Z.to_nat (punto_de_insercion l x)) l
               ++ mkUsuarioBizi x 0 0 :: drop (Z.to_nat (punto_de_insercion l x)) l).
Proof.
  intros Hs Hx. destruct (creciente_particion l x Hs) as [Hantes Hdespues].
  assert (Hestricto : Forall (fun u => x < id u)
                        (drop (Z.to_nat (punto_de_insercion l x)) l)).
  { rewrite Forall_forall in Hdespues |- *. intros u Hu.
    specialize (Hdespues u Hu).
    assert (id u <> x); [|lia].
    apply (ausente_distinto x l); [done|]. by eapply subseteq_drop. }
  unfold creciente in *.
  rewrite <- (take_drop (Z.to_nat (punto_de_insercion l x)) l) in Hs.
  apply StronglySorted_app in Hs as (Hcruce & Hs1 & Hs2).
  apply StronglySorted_app_2; [|done|].
  - rewrite Forall_forall in Hantes, Hestricto.
    intros u v Hu [->|Hv]%elem_of_cons; simpl.
    + by apply Hantes.
    + by apply Hcruce.
  - apply StronglySorted_cons. split; [|done]. done.
Qed.

Lemma creciente_NoDup l : creciente l -> NoDup (id <$> l).
Proof.
  induction 1 as [|u l Hs IH Hu]; simpl; constructor; [|done].
  rewrite Forall_forall in Hu. intros (v & Hid & Hv)%list_elem_of_fmap.
  specialize (Hu v Hv). lia.
Qed.

(** ** One event: [contabilizar] *)

Lemma suma_usos_app l1 l2 : suma_usos (l1 ++ l2) = suma_usos l1 + suma_usos l2.
Proof. unfold suma_usos. induction l1 as [|u l1 IH]; simpl; lia. Qed.

Lemma suma_usos_cons u l : suma_usos (u :: l) = num_usos_totales u + suma_usos l.
Proof. done. Qed.

Lemma num_usos_totales_incremento uso u :
  num_usos_totales (incremento uso u) = num_usos_totales u + 1.
Proof.
  unfold incremento, num_usos_totales.
  destruct (estacion_retirada uso =? estacion_devolucion uso); simpl; lia.
Qed.

Lemma id_incremento uso u : id (incremento uso u) = id u.
Proof.
  unfold incremento.
  by destruct (estacion_retirada uso =? estacion_devolucion uso).
Qed.

Lemma contabilizar_presente l uso :
  creciente l -> presente (id_usuario uso) l ->
  exists u,
    l !! Z.to_nat (punto_de_insercion l (id_usuario uso)) = Some u
    /\ id u = id_usuario uso
    /\ contabilizar l uso =
         Ok (<[Z.to_nat (punto_de_insercion l (id_usuario uso)) := incremento uso u]> l).
Proof.
  intros Hs Hx. destruct (ubicar_presente l _ Hs Hx) as (Hub & u & Hl & Hid).
  exists u. do 2 (split; [done|]).
  pose proof (punto_de_insercion_cotas l (id_usuario uso)) as Hp.
  pose proof (lookup_lt_Some _ _ _ Hl) as Hlt.
  assert (punto_de_insercion l (id_usuario uso) < len l) by (unfold len; lia).
  unfold contabilizar, incremento. rewrite Hub. simpl.
  destruct (estacion_retirada uso =? estacion_devolucion uso);
    rewrite (getitem_lookup _ _ u) by (done || lia); simpl;
    by rewrite setitem_en_rango by lia.
Qed.

Lemma contabilizar_ausente l uso :
  creciente l -> ~ presente (id_usuario uso) l ->
  contabilizar l uso =
    Ok (take (Z.to_nat (punto_de_insercion l (id_usuario uso))) l
          ++ incremento uso (mkUsuarioBizi (id_usuario uso) 0 0)
          :: drop (Z.to_nat (punto_de_insercion l (id_usuario uso))) l).
Proof.
  intros Hs Hx. pose proof (ubicar_ausente l _ Hs Hx) as Hub.
  pose proof (punto_de_insercion_cotas l (id_usuario uso)) as Hp.
  set (p := punto_de_insercion l (id_usuario uso)) in *.
  set (nuevo := mkUsuarioBizi (id_usuario uso) 0 0) in *.
  assert (Hlen : length (take (Z.to_nat p) l) = Z.to_nat p).
  { apply length_take_le. unfold len in Hp. lia. }
  assert (Hl : (take (Z.to_nat p) l ++ nuevo :: drop (Z.to_nat p) l) !! Z.to_nat p
               = Some nuevo).
  { rewrite lookup_app_r by lia. by rewrite Hlen, Nat.sub_diag. }
  assert (Hrango : 0 <= p < len (take (Z.to_nat p) l ++ nuevo :: drop (Z.to_nat p) l)).
  { apply lookup_lt_Some in Hl. unfold len. lia. }
  assert (Hins : <[Z.to_nat p := incremento uso nuevo]>
                   (take (Z.to_nat p) l ++ nuevo :: drop (Z.to_nat p) l)
                 = take (Z.to_nat p) l ++ incremento uso nuevo :: drop (Z.to_nat p) l).
  { rewrite insert_app_r_alt by lia. by rewrite Hlen, Nat.sub_diag. }
  unfold contabilizar. rewrite Hub. simpl. rewrite <- Hins. unfold incremento.
  destruct (estacion_retirada uso =? estacion_devolucion uso);
    rewrite (getitem_lookup _ _ nuevo) by (done || lia); simpl;
    by rewrite setitem_en_rango by lia.
Qed.

Lemma creciente_reemplazar l (k : nat) u v :
  creciente l -> l !! k = Some u -> id v = id u -> creciente (<[k := v]> l).
Proof.
  intros Hs Hk Hid. unfold creciente in *.
  pose proof (lookup_lt_Some _ _ _ Hk) as Hlt.
  rewrite insert_take_drop by done.
  rewrite <- (take_drop_middle l k u Hk) in Hs.
  apply StronglySorted_app in Hs as (Hcruce & Hs1 & Hs2).
  apply StronglySorted_cons in Hs2 as [Hu Hs2].
  apply StronglySorted_app_2; [|done|].
  - intros a b Ha [->|Hb]%elem_of_cons.
    + rewrite Hid. apply Hcruce; [done|]. by left.
    + apply Hcruce; [done|]. by right.
  - apply StronglySorted_cons. split; [|done].
    eapply Forall_impl; [exact Hu|]. simpl. intros b Hb. by rewrite Hid.
Qed.

Lemma suma_usos_reemplazar l (k : nat) u v :
  l !! k = Some u ->
  suma_usos (<[k := v]> l) = suma_usos l - num_usos_totales u + num_usos_totales v.
Proof.
  intros Hk. pose proof (lookup_lt_Some _ _ _ Hk) as Hlt.
  rewrite insert_take_drop by done.
  replace (suma_usos l) with (suma_usos (take k l ++ u :: drop (S k) l))
    by (by rewrite take_drop_middle).
  rewrite !suma_usos_app, !suma_usos_cons. lia.
Qed.

(** Every event leaves an increasing registry increasing and adds exactly
    one use to the total. *)
Lemma contabilizar_invariante l uso :
  creciente l ->
  exists l', contabilizar l uso = Ok l'
    /\ creciente l' /\ suma_usos l' = suma_usos l + 1.
Proof.
  intros Hs. destruct (classic_presente (id_usuario uso) l) as [Hx|Hx].
  - destruct (contabilizar_presente l uso Hs Hx) as (u & Hl & Hid & Hc).
    eexists. split; [exact Hc|]. split.
    + eapply creciente_reemplazar; [done|exact Hl|]. apply id_incremento.
    + rewrite (suma_usos_reemplazar _ _ u) by done.
      rewrite num_usos_totales_incremento. lia.
  - eexists. split; [by apply contabilizar_ausente|]. split.
    + pose proof (creciente_insertar l _ Hs Hx) as Hs'.
      unfold creciente in *.
      apply StronglySorted_app in Hs' as (Hcruce & Hs1 & Hs2).
      apply StronglySorted_cons in Hs2 as [Hu Hs2].
      apply StronglySorted_app_2; [|done|].
      * intros a b Ha [->|Hb]%elem_of_cons.
        -- rewrite id_incremento. apply Hcruce; [done|]. by left.
        -- apply Hcruce; [done|]. by right.
      * apply StronglySorted_cons. split; [|done].
        eapply Forall_impl; [exact Hu|]. simpl. intros b Hb.
        by rewrite id_incremento.
    + rewrite suma_usos_app, suma_usos_cons, num_usos_totales_incremento.
      replace (suma_usos l) with
        (suma_usos (take (Z.to_nat (punto_de_insercion l (id_usuario uso))) l
                      ++ drop (Z.to_nat (punto_de_insercion l (id_usuario uso))) l))
        by (by rewrite take_drop).
      rewrite suma_usos_app. unfold num_usos_totales. simpl. lia.
Qed.

(** ** Lines: [convertir] and the reading loop *)

Lemma getitem_nat {A} (l : list A) (k : nat) :
  getitem l (Z.of_nat k) =
    match l !! k with Some x => Ok x | None => Raise IndexError end.
Proof.
  destruct (l !! k) as [x|] eqn:Hk.
  - apply getitem_lookup; [lia|]. by rewrite Nat2Z.id.
  - apply lookup_ge_None in Hk. unfold getitem.
    destruct (Z.ltb_spec (Z.of_nat k) 0); [lia|].
    destruct (Z.ltb_spec (Z.of_nat k) (len l)); [unfold len in *; lia|].
    by rewrite andb_false_r.
Qed.

Section Lineas.

Variable int : string -> option Z.

Lemma convertir_campos linea :
  convertir int linea =
    match campo linea 0 with
    | None => Raise IndexError
    | Some e0 =>
      match int e0 with
      | None => Raise ValueError
      | Some i0 =>
        match campo linea 2 with
        | None => Raise IndexError
        | Some e2 =>
          match int e2 with
          | None => Raise ValueError
          | Some i2 =>
            match campo linea 4 with
            | None => Raise IndexError
            | Some e4 =>
              match int e4 with
              | None => Raise ValueError
              | Some i4 => Ok (mkUsoBizi i0 i2 i4)
              end
            end
          end
        end
      end
    end.
Proof.
  unfold convertir, campo, int_de.
  change 0 with (Z.of_nat 0). change 2 with (Z.of_nat 2).
  change 4 with (Z.of_nat 4). rewrite !getitem_nat.
  destruct (split DELIMITADOR linea !! 0%nat) as [e0|]; simpl; [|done].
  destruct (int e0); simpl; [|done].
  destruct (split DELIMITADOR linea !! 2%nat) as [e2|]; simpl; [|done].
  destruct (int e2); simpl; [|done].
  destruct (split DELIMITADOR linea !! 4%nat) as [e4|]; simpl; [|done].
  by destruct (int e4).
Qed.

Lemma convertir_bien_formada linea :
  bien_formada int linea <-> exists uso, convertir int linea = Ok uso.
Proof.
  rewrite convertir_campos. unfold bien_formada. split.
  - intros H.
    destruct (H 0%nat) as (e0 & i0 & -> & ->); [tauto|].
    destruct (H 2%nat) as (e2 & i2 & -> & ->); [tauto|].
    destruct (H 4%nat) as (e4 & i4 & -> & ->); [tauto|]. eauto.
  - intros [uso H] k Hk.
    destruct (campo linea 0) as [e0|] eqn:Hc0; [|done].
    destruct (int e0) as [i0|] eqn:H0; [|done].
    destruct (campo linea 2) as [e2|] eqn:Hc2; [|done].
    destruct (int e2) as [i2|] eqn:H2; [|done].
    destruct (campo linea 4) as [e4|] eqn:Hc4; [|done].
    destruct (int e4) as [i4|] eqn:H4; [|done].
    destruct Hk as [->| [->| ->]]; eauto.
Qed.

Lemma convertir_mal_formada linea :
  mal_formada int linea <-> exists e, convertir int linea = Raise e.
Proof.
  rewrite convertir_campos. unfold mal_formada, campo. split.
  - intros [Hlen|(k & s & Hk & Hs & Hint)].
    + destruct (split DELIMITADOR linea !! 0%nat) as [e0|]; [|eauto].
      destruct (int e0); [|eauto].
      destruct (split DELIMITADOR linea !! 2%nat) as [e2|]; [|eauto].
      destruct (int e2); [|eauto].
      destruct (split DELIMITADOR linea !! 4%nat) as [e4|] eqn:H4; [|eauto].
      apply lookup_lt_Some in H4. lia.
    + destruct (split DELIMITADOR linea !! 0%nat) as [e0|] eqn:H0; [|eauto].
      destruct (int e0) eqn:Hi0; [|eauto].
      destruct (split DELIMITADOR linea !! 2%nat) as [e2|] eqn:H2; [|eauto].
      destruct (int e2) eqn:Hi2; [|eauto].
      destruct (split DELIMITADOR linea !! 4%nat) as [e4|] eqn:H4; [|eauto].
      destruct (int e4) eqn:Hi4; [|eauto].
      destruct Hk as [->| [->| ->]]; congruence.
  - intros [e H].
    destruct (split DELIMITADOR linea !! 0%nat) as [e0|] eqn:H0.
    2:{ left. apply lookup_ge_None in H0. lia. }
    destruct (int e0) eqn:Hi0.
    2:{ right. exists 0%nat, e0. tauto. }
    destruct (split DELIMITADOR linea !! 2%nat) as [e2|] eqn:H2.
    2:{ left. apply lookup_ge_None in H2. lia. }
    destruct (int e2) eqn:Hi2.
    2:{ right. exists 2%nat, e2. tauto. }
    destruct (split DELIMITADOR linea !! 4%nat) as [e4|] eqn:H4.
    2:{ left. apply lookup_ge_None in H4. lia. }
    destruct (int e4) eqn:Hi4; [done|].
    right. exists 4%nat, e4. tauto.
Qed.

Lemma para_cada_linea_invariante lineas : forall l,
  creciente l -> Forall (bien_formada int) lineas ->
  exists l', para_cada_linea int l lineas = Ok l'
    /\ creciente l' /\ suma_usos l' = suma_usos l + len lineas.
Proof.
  induction lineas as [|linea resto IH]; intros l Hs Hbien; simpl.
  - exists l. unfold len. simpl. split; [done|]. split; [done|lia].
  - apply Forall_cons in Hbien as [Hlinea Hresto].
    apply convertir_bien_formada in Hlinea as [uso ->]. simpl.
    destruct (contabilizar_invariante l uso Hs) as (l1 & -> & Hs1 & Hsuma1).
    simpl. destruct (IH l1 Hs1 Hresto) as (l' & -> & Hs' & Hsuma).
    exists l'. rewrite len_cons. split; [done|]. split; [done|lia].
Qed.

Lemma para_cada_linea_Ok lineas : forall l l',
  para_cada_linea int l lineas = Ok l' -> Forall (bien_formada int) lineas.
Proof.
  induction lineas as [|linea resto IH]; intros l l' H; [done|].
  simpl in H. destruct (convertir int linea) as [uso|] eqn:Hc; [|done].
  simpl in H. destruct (contabilizar l uso) as [l1|]; [|done]. simpl in H.
  constructor; [|by eapply IH]. apply convertir_bien_formada. eauto.
Qed.

Lemma para_cada_linea_aborta antes : forall l mala despues e,
  creciente l -> Forall (bien_formada int) antes ->
  convertir int mala = Raise e ->
  para_cada_linea int l (antes ++ mala :: despues) = Raise e.
Proof.
  induction antes as [|linea resto IH]; intros l mala despues e Hs Hbien Hmala;
    simpl.
  - by rewrite Hmala.
  - apply Forall_cons in Hbien as [Hlinea Hresto].
    apply convertir_bien_formada in Hlinea as [uso ->]. simpl.
    destruct (contabilizar_invariante l uso Hs) as (l1 & -> & Hs1 & _).
    simpl. by apply IH.
Qed.

End Lineas.

(** ** The maximum scan *)

Lemma mayor_para_primer_maximo l i (n : nat) : forall a m u,
  0 <= i -> a + Z.of_nat n = len l ->
  l !! Z.to_nat m = Some u -> primer_maximo l i a m ->
  exists j, mayor_para l (seqZ a (Z.of_nat n)) m (num_usos_totales u) = Ok j
    /\ primer_maximo l i (len l) j.
Proof.
  induction n as [|n IH]; intros a m u Hi Ha Hm Hmax.
  - simpl. exists m. split; [done|]. by replace (len l) with a by lia.
  - rewrite seqZ_cons by lia. simpl.
    destruct Hmax as (Hrango & um & Hum & Hmayor & Hprimero).
    assert (um = u) as -> by congruence.
    destruct (getitem_en_rango l a) as (ua & Hla & Hga); [lia|].
    rewrite Hga. simpl.
    replace (Z.pred (Z.of_nat (S n))) with (Z.of_nat n) by lia.
    destruct (Z.gtb_spec (num_usos_totales ua) (num_usos_totales u)) as [Hgt|Hle].
    + apply IH; [done|lia|done|].
      split; [lia|]. exists ua. split; [done|]. split.
      * intros k v Hk Hv. destruct (decide (k = a)) as [->|Hne].
        -- assert (v = ua) as -> by congruence. lia.
        -- specialize (Hmayor k v ltac:(lia) Hv). lia.
      * intros k v Hk Hv. specialize (Hmayor k v ltac:(lia) Hv). lia.
    + apply IH; [done|lia|done|].
      split; [lia|]. exists u. split; [done|]. split; [|done].
      intros k v Hk Hv. destruct (decide (k = a)) as [->|Hne].
      * assert (v = ua) as -> by congruence. lia.
      * apply (Hmayor k v); [lia|done].
Qed.

Lemma buscar_indice_del_mayor_primer_maximo l i :
  0 <= i < len l ->
  exists j, buscar_indice_del_mayor l i = Ok j /\ primer_maximo l i (len l) j.
Proof.
  intros Hi. unfold buscar_indice_del_mayor, range.
  destruct (getitem_en_rango l i Hi) as (u & Hl & ->). simpl.
  replace (len l - (i + 1)) with (Z.of_nat (Z.to_nat (len l - (i + 1)))) by lia.
  apply (mayor_para_primer_maximo l i); [lia|lia|done|].
  split; [lia|]. exists u. split; [done|]. split.
  - intros k v Hk Hv. assert (k = i) as -> by lia.
    assert (v = u) as -> by congruence. lia.
  - intros k v Hk. lia.
Qed.

Lemma primer_maximo_unico l i a j1 j2 :
  primer_maximo l i a j1 -> primer_maximo l i a j2 -> j1 = j2.
Proof.
  intros (Hr1 & u1 & Hu1 & Hmay1 & Hpri1) (Hr2 & u2 & Hu2 & Hmay2 & Hpri2).
  destruct (Z.lt_trichotomy j1 j2) as [Hlt|[Heq|Hgt]]; [|done|].
  - specialize (Hpri2 j1 u1 ltac:(lia) Hu1).
    specialize (Hmay1 j2 u2 ltac:(lia) Hu2). lia.
  - specialize (Hpri1 j2 u2 ltac:(lia) Hu2).
    specialize (Hmay2 j1 u1 ltac:(lia) Hu1). lia.
Qed.

(** ** The exchange and the selection loop *)

Lemma intercambiar_en_rango l i j a b :
  0 <= i -> 0 <= j ->
  l !! Z.to_nat j = Some a -> l !! Z.to_nat i = Some b ->
  intercambiar l i j = Ok (<[Z.to_nat j := b]> (<[Z.to_nat i := a]> l)).
Proof.
  intros Hi Hj Ha Hb. unfold intercambiar.
  pose proof (lookup_lt_Some _ _ _ Ha). pose proof (lookup_lt_Some _ _ _ Hb).
  rewrite (getitem_lookup _ _ a), (getitem_lookup _ _ b) by done. simpl.
  rewrite setitem_en_rango by (unfold len; lia). simpl.
  rewrite setitem_en_rango; [done|]. unfold len. rewrite length_insert. lia.
Qed.

Lemma intercambiar_lookup {A} (l : list A) (i j k : nat) (a b : A) :
  l !! j = Some a -> l !! i = Some b ->
  <[j := b]> (<[i := a]> l) !! k =
    if decide (k = j) then Some b else if decide (k = i) then Some a else l !! k.
Proof.
  intros Ha Hb.
  pose proof (lookup_lt_Some _ _ _ Ha). pose proof (lookup_lt_Some _ _ _ Hb).
  rewrite !list_lookup_insert, length_insert.
  repeat case_decide; try done; lia.
Qed.

Lemma ordenar_para_app r1 : forall l r2,
  ordenar_para l (r1 ++ r2) =
    (let* l1 := ordenar_para l r1 in ordenar_para l1 r2).
Proof.
  induction r1 as [|i r1 IH]; intros l r2; simpl; [done|].
  destruct (buscar_indice_del_mayor l i) as [j|]; simpl; [|done].
  destruct (intercambiar l i j) as [l1|]; simpl; [|done]. apply IH.
Qed.

(** One iteration of the selection loop at slot [a]. *)
Lemma ordenar_paso l a :
  0 <= a < len l -> prefijo_fijado l a ->
  exists j r l', buscar_indice_del_mayor l a = Ok j
    /\ primer_maximo l a (len l) j
    /\ l !! Z.to_nat j = Some r
    /\ intercambiar l a j = Ok l'
    /\ l' !! Z.to_nat a = Some r
    /\ (forall k : nat, (k < Z.to_nat a)%nat -> l' !! k = l !! k)
    /\ l' ≡ₚ l
    /\ prefijo_fijado l' (a + 1).
Proof.
  intros Ha Hfijo.
  destruct (buscar_indice_del_mayor_primer_maximo l a Ha) as (j & Hj & Hmax).
  pose proof Hmax as (Hrango & r & Hr & Hmayor & _).
  destruct (getitem_en_rango l a Ha) as (b & Hb & _).
  exists j, r, (<[Z.to_nat j := b]> (<[Z.to_nat a := r]> l)).
  assert (Hlen : len (<[Z.to_nat j := b]> (<[Z.to_nat a := r]> l)) = len l).
  { unfold len. by rewrite !length_insert. }
  split; [done|]. split; [done|]. split; [done|].
  split; [apply intercambiar_en_rango; (done || lia)|].
  split; [|split; [|split]].
  - rewrite (intercambiar_lookup _ _ _ _ r b) by done.
    repeat case_decide; try done. congruence.
  - intros k Hk. rewrite (intercambiar_lookup _ _ _ _ r b) by done.
    repeat case_decide; try done; lia.
  - by apply Permutation_insert_swap.
  - intros i' j' ui uj Hi' Hj' Hui Huj. rewrite Hlen in Hj'.
    assert (Hsufijo : forall (k : nat) v,
              <[Z.to_nat j := b]> (<[Z.to_nat a := r]> l) !! k = Some v ->
              exists k' : nat, l !! k' = Some v
                /\ (Z.of_nat k < a -> k' = k) /\ (a <= Z.of_nat k -> a <= Z.of_nat k')).
    { intros k v Hv. rewrite (intercambiar_lookup _ _ _ _ r b) in Hv by done.
      destruct (decide (k = Z.to_nat j)) as [->|?].
      { exists (Z.to_nat a). split; [congruence|lia]. }
      destruct (decide (k = Z.to_nat a)) as [->|?].
      { exists (Z.to_nat j). split; [congruence|lia]. }
      exists k. split; [done|lia]. }
    destruct (Hsufijo (Z.to_nat j') uj Huj) as (k' & Hvk' & Hmenor & Hmayor').
    pose proof (lookup_lt_Some _ _ _ Hvk') as Hk'lt.
    rewrite (intercambiar_lookup _ _ _ _ r b) in Hui by done.
    destruct (decide (i' = a)) as [->|Hne].
    + assert (ui = r) as ->.
      { destruct (decide (Z.to_nat a = Z.to_nat j)) as [Heq|?].
        - rewrite Heq in Hb. congruence.
        - rewrite decide_True in Hui by done. congruence. }
      apply (Hmayor (Z.of_nat k') uj); [unfold len; lia|]. by rewrite Nat2Z.id.
    + rewrite decide_False in Hui by lia. rewrite decide_False in Hui by lia.
      apply (Hfijo i' (Z.of_nat k') ui uj); [lia|unfold len; lia|done|].
      by rewrite Nat2Z.id.
Qed.

Lemma ordenar_para_seqZ (n : nat) : forall a l,
  0 <= a -> a + Z.of_nat n <= len l -> prefijo_fijado l a ->
  exists l', ordenar_para l (seqZ a (Z.of_nat n)) = Ok l'
    /\ prefijo_fijado l' (a + Z.of_nat n)
    /\ l' ≡ₚ l
    /\ (forall k : nat, (k < Z.to_nat a)%nat -> l' !! k = l !! k).
Proof.
  induction n as [|n IH]; intros a l Ha Hn Hfijo.
  - simpl. exists l. split; [done|]. split; [by rewrite Z.add_0_r|done].
  - rewrite seqZ_cons by lia. simpl.
    destruct (ordenar_paso l a ltac:(lia) Hfijo)
      as (j & r & l1 & Hj & _ & _ & Hint & _ & Hantes & Hperm & Hfijo1).
    rewrite Hj. simpl. rewrite Hint. simpl. replace (Z.pred (Z.of_nat (S n))) with (Z.of_nat n) by lia.
    assert (Hlen : len l1 = len l).
    { unfold len. by rewrite (Permutation_length Hperm). }
    destruct (IH (Z.succ a) l1) as (l' & -> & Hfijo' & Hperm' & Hantes');
      [lia|lia|by replace (Z.succ a) with (a + 1) by lia|].
    exists l'. split; [done|]. split; [|split].
    + by replace (a + Z.of_nat (S n)) with (Z.succ a + Z.of_nat n) by lia.
    + by rewrite Hperm'.
    + intros k Hk. rewrite Hantes' by lia. by apply Hantes.
Qed.

(** [ordenar] unfolded: a loop over the first [min num_ordenar (len l)]
    slots, none when that bound is not positive. *)
Lemma ordenar_seqZ l k :
  ordenar l k =
    ordenar_para l (seqZ 0 (Z.of_nat (Z.to_nat (Z.min k (len l))))).
Proof.
  unfold ordenar, range. rewrite Z.sub_0_r.
  destruct (Z.le_gt_cases 0 (Z.min k (len l))).
  - by rewrite Z2Nat.id.
  - rewrite seqZ_nil by lia. by rewrite Z2Nat.nonpos by lia.
Qed.

Lemma prefijo_fijado_cero l : prefijo_fijado l 0.
Proof. intros i j ui uj Hi. lia. Qed.

Lemma ordenar_total l k :
  exists l', ordenar l k = Ok l'
    /\ prefijo_fijado l' (Z.max 0 (Z.min k (len l)))
    /\ l' ≡ₚ l.
Proof.
  rewrite ordenar_seqZ. pose proof (len_nonneg l).
  destruct (ordenar_para_seqZ (Z.to_nat (Z.min k (len l))) 0 l)
    as (l' & Hl' & Hfijo & Hperm & _); [lia|lia|apply prefijo_fijado_cero|].
  exists l'. split; [done|]. split; [|done].
  by replace (Z.max 0 (Z.min k (len l)))
    with (0 + Z.of_nat (Z.to_nat (Z.min k (len l)))) by lia.
Qed.

(** The registry after [i] slots have been fixed is [ordenar l i]; slot [i]
    then receives the left-most maximum of what lies from [i] on, and is
    not touched again. *)
Lemma ordenar_ranura l k i :
  0 <= i < Z.min k (len l) ->
  exists li j r l',
    ordenar l i = Ok li /\ len li = len l
    /\ buscar_indice_del_mayor li i = Ok j
    /\ primer_maximo li i (len li) j
    /\ li !! Z.to_nat j = Some r
    /\ ordenar l k = Ok l'
    /\ l' !! Z.to_nat i = Some r.
Proof.
  intros Hi.
  destruct (ordenar_para_seqZ (Z.to_nat i) 0 l)
    as (li & Hli & Hfijo & Hperm & _); [lia|lia|apply prefijo_fijado_cero|].
  replace (0 + Z.of_nat (Z.to_nat i)) with i in Hfijo by lia.
  replace (Z.of_nat (Z.to_nat i)) with i in Hli by lia.
  assert (Hlen : len li = len l).
  { unfold len. by rewrite (Permutation_length Hperm). }
  destruct (ordenar_paso li i ltac:(lia) Hfijo)
    as (j & r & l1 & Hj & Hmax & Hr & Hint & Hl1 & _ & Hperm1 & Hfijo1).
  assert (Hlen1 : len l1 = len l).
  { unfold len in *. by rewrite (Permutation_length Hperm1). }
  set (m := Z.min k (len l)) in *.
  destruct (ordenar_para_seqZ (Z.to_nat (m - i - 1)) (Z.succ i) l1)
    as (l' & Hl' & _ & _ & Hantes);
    [lia|lia|by replace (Z.succ i) with (i + 1) by lia|].
  exists li, j, r, l'.
  split.
  { rewrite ordenar_seqZ. replace (Z.min i (len l)) with i by lia.
    by replace (Z.of_nat (Z.to_nat i)) with i by lia. }
  do 4 (split; [done|]). split.
  - rewrite ordenar_seqZ. fold m.
    replace (Z.of_nat (Z.to_nat m)) with (i + (m - i)) by lia.
    rewrite seqZ_app by lia. rewrite ordenar_para_app, Hli, Z.add_0_l.
    rewrite seqZ_cons by lia. cbn [ligar ordenar_para].
    rewrite Hj. cbn [ligar]. rewrite Hint. cbn [ligar].
    by replace (Z.pred (m - i)) with (Z.of_nat (Z.to_nat (m - i - 1))) by lia.
  - rewrite Hantes by lia. done.
Qed.

(** * Main results *)

(** ** The sorted registry *)

(** [punto_de_insercion] is what its description says, on any list: all
    the elements before it are below [x], the element at it (if any) is
    not, and it is the length exactly when every element is below [x]. *)
Lemma punto_de_insercion_primero l x :
  (forall (k : nat) u, l !! k = Some u -> Z.of_nat k < punto_de_insercion l x ->
     id u < x)
  /\ (punto_de_insercion l x < len l ->
      exists u, l !! Z.to_nat (punto_de_insercion l x) = Some u /\ x <= id u)
  /\ (punto_de_insercion l x = len l <-> Forall (fun u => id u < x) l).
Proof.
  induction l as [|a l (IH1 & IH2 & IH3)]; simpl.
  { split; [done|]. split; [unfold len; simpl; lia|]. done. }
  rewrite len_cons. pose proof (punto_de_insercion_cotas l x) as Hp.
  destruct (Z.ltb_spec (id a) x) as [Hlt|Hge].
  - split; [|split].
    + intros [|k] u Hk Hkp; simpl in Hk; [by injection Hk as <-|].
      apply (IH1 k u Hk). lia.
    + intros Hp'. destruct IH2 as (u & Hu & Hx); [lia|]. exists u. split; [|done].
      replace (Z.to_nat (1 + punto_de_insercion l x))
        with (S (Z.to_nat (punto_de_insercion l x))) by lia. done.
    + rewrite Forall_cons, <- IH3. split; [intros; split; [done|lia]|lia].
  - split; [|split].
    + intros k u _ Hk. lia.
    + intros _. exists a. split; [done|lia].
    + pose proof (len_nonneg l). rewrite Forall_cons. split; [lia|]. lia.
Qed.

(** What [buscar] returns on a registry strictly increasing by [id]: when
    the identifier is present, [True] and the position of its record; when
    it is absent, [False] with the position of the first element of larger
    identifier if there is one, and otherwise (the identifier exceeds every
    one in the list) the last position, [len - 1], or [0] on the empty
    list.  In that last case the index is not the insertion point that the
    docstring of [buscar] promises; [ubicar] adds one to it. *)
Lemma buscar_correcto l x :
  creciente l ->
  (presente x l ->
     exists i u, buscar l x = Ok (true, i)
       /\ 0 <= i /\ l !! Z.to_nat i = Some u /\ id u = x)
  /\ (~ presente x l ->
      buscar l x =
        Ok (false,
            if punto_de_insercion l x <? len l then punto_de_insercion l x
            else Z.max 0 (len l - 1))).
Proof.
  intros Hs. destruct (buscar_creciente l x Hs) as (esta & Hb & Hesta & Hu).
  pose proof (punto_de_insercion_cotas l x) as Hp. split.
  - intros Hx. apply Hesta in Hx. subst esta.
    destruct (Hu eq_refl) as (u & Hl & Hid).
    exists (punto_de_insercion l x), u.
    split; [|split; [lia|done]]. rewrite Hb. do 2 f_equal.
    apply lookup_lt_Some in Hl. unfold len in *. lia.
  - intros Hx. destruct esta; [by destruct Hx; apply Hesta|].
    rewrite Hb. do 2 f_equal.
    destruct (Z.ltb_spec (punto_de_insercion l x) (len l)); lia.
Qed.

Lemma buscar_correcto_testigo :
  creciente registro_ejemplo
  /\ ((presente 25 registro_ejemplo ->
        exists i u, buscar registro_ejemplo 25 = Ok (true, i)
          /\ 0 <= i /\ registro_ejemplo !! Z.to_nat i = Some u /\ id u = 25)
      /\ (~ presente 25 registro_ejemplo ->
          buscar registro_ejemplo 25 =
            Ok (false,
                if punto_de_insercion registro_ejemplo 25 <? len registro_ejemplo
                then punto_de_insercion registro_ejemplo 25
                else Z.max 0 (len registro_ejemplo - 1)))).
Proof.
  assert (H : creciente registro_ejemplo)
    by (unfold creciente, registro_ejemplo; repeat constructor; simpl; lia).
  split; [exact H|]. apply (buscar_correcto registro_ejemplo 25). exact H.
Defined.

(** C1.  The code breaks the claim, and the docstring of [buscar] with it
    ("the index where it would have to be inserted to keep the order"):
    searching the one-record registry [[10]] for the absent identifier
    [20], which exceeds every identifier, [buscar] returns index [0], not
    the insertion point [1 = len].  The search never looks past the last
    position; only the guard of lines 101-102 in [ubicar] makes up for it. *)
Lemma buscar_mayor_que_todos :
  creciente [mkUsuarioBizi 10 0 0]
  /\ ~ presente 20 [mkUsuarioBizi 10 0 0]
  /\ punto_de_insercion [mkUsuarioBizi 10 0 0] 20 = len [mkUsuarioBizi 10 0 0]
  /\ buscar [mkUsuarioBizi 10 0 0] 20 = Ok (false, 0)
  /\ buscar [mkUsuarioBizi 10 0 0] 20
       <> Ok (false, punto_de_insercion [mkUsuarioBizi 10 0 0] 20).
Proof.
  split; [unfold creciente; repeat constructor|].
  split.
  { intros (u & Hu & Hid). apply list_elem_of_singleton in Hu. by subst u. }
  split; [done|]. split; [done|]. by vm_compute.
Qed.

(** C2.  [ubicar] keeps the registry strictly increasing by [id] and free
    of duplicate identifiers, for one call and for any sequence of calls. *)
Theorem ubicar_conserva_creciente l :
  creciente l ->
  (forall x, exists l' i,
     ubicar l x = Ok (l', i) /\ creciente l' /\ NoDup (id <$> l'))
  /\ (forall ids, exists l',
       ubicar_sucesivos l ids = Ok l' /\ creciente l' /\ NoDup (id <$> l')).
Proof.
  assert (Huno : forall l x, creciente l ->
            exists l' i, ubicar l x = Ok (l', i) /\ creciente l').
  { clear l. intros l x Hs. destruct (classic_presente x l) as [Hx|Hx].
    - destruct (ubicar_presente l x Hs Hx) as [Hub _]. by exists l, (punto_de_insercion l x).
    - eexists _, _. split; [by apply ubicar_ausente|]. by apply creciente_insertar. }
  intros Hs. split.
  - intros x. destruct (Huno l x Hs) as (l' & i & Hub & Hs').
    exists l', i. split; [done|]. split; [done|]. by apply creciente_NoDup.
  - intros ids. revert l Hs. induction ids as [|x ids IH]; intros l Hs; simpl.
    + exists l. split; [done|]. split; [done|]. by apply creciente_NoDup.
    + destruct (Huno l x Hs) as (l1 & i & -> & Hs1). simpl. by apply IH.
Qed.

Lemma ubicar_conserva_creciente_testigo :
  creciente registro_ejemplo
  /\ ((forall x, exists l' i,
        ubicar registro_ejemplo x = Ok (l', i)
        /\ creciente l' /\ NoDup (id <$> l'))
      /\ (forall ids, exists l',
          ubicar_sucesivos registro_ejemplo ids = Ok l'
          /\ creciente l' /\ NoDup (id <$> l'))).
Proof.
  assert (H : creciente registro_ejemplo)
    by (unfold creciente, registro_ejemplo; repeat constructor; simpl; lia).
  split; [exact H|]. apply (ubicar_conserva_creciente registro_ejemplo). exact H.
Defined.

(** C3.  On a strictly increasing registry: if the identifier is present
    [ubicar] returns the index of its record and leaves the list as it was;
    if it is absent the list is cut at the insertion point, between the
    smaller and the larger identifiers, a record with both counters at [0]
    is inserted there and its index is returned.  Either way the record at
    the returned index carries the requested identifier. *)
Theorem ubicar_correcto l x :
  creciente l ->
  (presente x l ->
     exists i u, ubicar l x = Ok (l, i)
       /\ 0 <= i /\ l !! Z.to_nat i = Some u /\ id u = x)
  /\ (~ presente x l ->
      exists l1 l2, l = l1 ++ l2
        /\ Forall (fun u => id u < x) l1 /\ Forall (fun u => x < id u) l2
        /\ ubicar l x = Ok (l1 ++ mkUsuarioBizi x 0 0 :: l2, len l1))
  /\ (exists l' i u, ubicar l x = Ok (l', i)
        /\ 0 <= i /\ l' !! Z.to_nat i = Some u /\ id u = x).
Proof.
  intros Hs. pose proof (punto_de_insercion_cotas l x) as Hp.
  assert (Hpres : presente x l ->
     exists i u, ubicar l x = Ok (l, i)
       /\ 0 <= i /\ l !! Z.to_nat i = Some u /\ id u = x).
  { intros Hx. destruct (ubicar_presente l x Hs Hx) as (Hub & u & Hl & Hid).
    exists (punto_de_insercion l x), u. split; [done|]. split; [lia|done]. }
  assert (Haus : ~ presente x l ->
      exists l1 l2, l = l1 ++ l2
        /\ Forall (fun u => id u < x) l1 /\ Forall (fun u => x < id u) l2
        /\ ubicar l x = Ok (l1 ++ mkUsuarioBizi x 0 0 :: l2, len l1)).
  { intros Hx. destruct (creciente_particion l x Hs) as [Hantes Hdespues].
    exists (take (Z.to_nat (punto_de_insercion l x)) l),
           (drop (Z.to_nat (punto_de_insercion l x)) l).
    split; [by rewrite take_drop|]. split; [done|]. split.
    - rewrite Forall_forall in Hdespues |- *. intros u Hu.
      specialize (Hdespues u Hu).
      assert (id u <> x); [|lia].
      apply (ausente_distinto x l); [done|]. by eapply subseteq_drop.
    - rewrite ubicar_ausente by done. do 2 f_equal.
      unfold len in *. rewrite length_take_le by lia. lia. }
  split; [done|]. split; [done|].
  destruct (classic_presente x l) as [Hx|Hx].
  - destruct (Hpres Hx) as (i & u & Hub & Hi & Hl & Hid). by exists l, i, u.
  - destruct (Haus Hx) as (l1 & l2 & _ & _ & _ & Hub).
    exists (l1 ++ mkUsuarioBizi x 0 0 :: l2), (len l1), (mkUsuarioBizi x 0 0).
    split; [done|]. split; [apply len_nonneg|]. split; [|done].
    unfold len. rewrite Nat2Z.id. by rewrite list_lookup_middle.
Qed.

Lemma ubicar_correcto_testigo :
  creciente registro_ejemplo
  /\ ((presente 25 registro_ejemplo ->
        exists i u, ubicar registro_ejemplo 25 = Ok (registro_ejemplo, i)
          /\ 0 <= i /\ registro_ejemplo !! Z.to_nat i = Some u /\ id u = 25)
      /\ (~ presente 25 registro_ejemplo ->
          exists l1 l2, registro_ejemplo = l1 ++ l2
            /\ Forall (fun u => id u < 25) l1 /\ Forall (fun u => 25 < id u) l2
            /\ ubicar registro_ejemplo 25
                 = Ok (l1 ++ mkUsuarioBizi 25 0 0 :: l2, len l1))
      /\ (exists l' i u, ubicar registro_ejemplo 25 = Ok (l', i)
            /\ 0 <= i /\ l' !! Z.to_nat i = Some u /\ id u = 25)).
Proof.
  assert (H : creciente registro_ejemplo)
    by (unfold creciente, registro_ejemplo; repeat constructor; simpl; lia).
  split; [exact H|]. apply (ubicar_correcto registro_ejemplo 25). exact H.
Defined.

(** ** The aggregation pass *)

(** C5.  One event on a strictly increasing registry.  If the user is
    already there, its record is replaced by [incremento]: circular counter
    plus one when the stations coincide, transit counter plus one otherwise,
    identifier and other counter untouched; the length and every other
    position are unchanged.  If the user is new, the only change is the
    insertion of its record, which counts that one event. *)
Theorem contabilizar_correcto l uso :
  creciente l ->
  (presente (id_usuario uso) l ->
     exists (i : nat) u l',
       l !! i = Some u /\ id u = id_usuario uso
       /\ contabilizar l uso = Ok l'
       /\ l' !! i = Some (incremento uso u)
       /\ length l' = length l
       /\ forall k : nat, k <> i -> l' !! k = l !! k)
  /\ (~ presente (id_usuario uso) l ->
      exists l1 l2, l = l1 ++ l2
        /\ contabilizar l uso =
             Ok (l1 ++ incremento uso (mkUsuarioBizi (id_usuario uso) 0 0) :: l2)).
Proof.
  intros Hs. split.
  - intros Hx. destruct (contabilizar_presente l uso Hs Hx) as (u & Hl & Hid & Hc).
    pose proof (lookup_lt_Some _ _ _ Hl) as Hlt.
    eexists _, u, _. split; [exact Hl|]. split; [done|]. split; [exact Hc|].
    split; [by apply list_lookup_insert_eq|].
    split; [by rewrite length_insert|].
    intros k Hk. by apply list_lookup_insert_ne.
  - intros Hx. eexists _, _. split; [|by apply contabilizar_ausente].
    by rewrite take_drop.
Qed.

Lemma contabilizar_correcto_testigo :
  creciente registro_ejemplo
  /\ ((presente (id_usuario (mkUsoBizi 20 7 7)) registro_ejemplo ->
        exists (i : nat) u l',
          registro_ejemplo !! i = Some u /\ id u = id_usuario (mkUsoBizi 20 7 7)
          /\ contabilizar registro_ejemplo (mkUsoBizi 20 7 7) = Ok l'
          /\ l' !! i = Some (incremento (mkUsoBizi 20 7 7) u)
          /\ length l' = length registro_ejemplo
          /\ forall k : nat, k <> i -> l' !! k = registro_ejemplo !! k)
      /\ (~ presente (id_usuario (mkUsoBizi 20 7 7)) registro_ejemplo ->
          exists l1 l2, registro_ejemplo = l1 ++ l2
            /\ contabilizar registro_ejemplo (mkUsoBizi 20 7 7) =
                 Ok (l1 ++ incremento (mkUsoBizi 20 7 7)
                              (mkUsuarioBizi (id_usuario (mkUsoBizi 20 7 7)) 0 0)
                        :: l2))).
Proof.
  assert (H : creciente registro_ejemplo)
    by (unfold creciente, registro_ejemplo; repeat constructor; simpl; lia).
  split; [exact H|].
  apply (contabilizar_correcto registro_ejemplo (mkUsoBizi 20 7 7)). exact H.
Defined.

Lemma creciente_nil : creciente [].
Proof. constructor. Qed.

(** Whenever the pass returns a registry, its lines were all well formed
    and the registry accounts for each of them once. *)
Lemma obtener_usos_Ok int f usuarios :
  obtener_usos_por_usuario_from_file int f = Ok usuarios ->
  Forall (bien_formada int) (tail f)
  /\ creciente usuarios /\ suma_usos usuarios = len (tail f).
Proof.
  unfold obtener_usos_por_usuario_from_file. intros H.
  pose proof (para_cada_linea_Ok int _ _ _ H) as Hbien. split; [done|].
  destruct (para_cada_linea_invariante int (tail f) [] creciente_nil Hbien)
    as (l' & Hl' & Hs & Hsuma).
  assert (l' = usuarios) as -> by congruence. split; [done|].
  rewrite Hsuma. by unfold suma_usos.
Qed.

(** C4.  When every line after the header is well formed the pass returns a
    registry, and the sum of [num_usos_totales] over it is the number of
    those lines. *)
Theorem conservacion int f :
  Forall (bien_formada int) (tail f) ->
  exists usuarios,
    obtener_usos_por_usuario_from_file int f = Ok usuarios
    /\ suma_usos usuarios = len (tail f).
Proof.
  intros Hbien. unfold obtener_usos_por_usuario_from_file.
  destruct (para_cada_linea_invariante int (tail f) [] creciente_nil Hbien)
    as (l' & Hl' & _ & Hsuma).
  exists l'. split; [done|]. rewrite Hsuma. by unfold suma_usos.
Qed.

Lemma fichero_ejemplo_bien_formado :
  Forall (bien_formada int_decimal) (tail fichero_ejemplo).
Proof.
  unfold fichero_ejemplo. simpl.
  repeat constructor; intros k [->|[->| ->]]; eexists _, _; split; reflexivity.
Defined.

Lemma conservacion_testigo :
  Forall (bien_formada int_decimal) (tail fichero_ejemplo)
  /\ exists usuarios,
       obtener_usos_por_usuario_from_file int_decimal fichero_ejemplo = Ok usuarios
       /\ suma_usos usuarios = len (tail fichero_ejemplo).
Proof.
  split; [exact fichero_ejemplo_bien_formado|].
  apply (conservacion int_decimal fichero_ejemplo).
  exact fichero_ejemplo_bien_formado.
Defined.

(** The worked example of the spec: two users, three events. *)
Example obtener_usos_ejemplo :
  obtener_usos_por_usuario_from_file int_decimal fichero_ejemplo
  = Ok [mkUsuarioBizi 10 1 1; mkUsuarioBizi 20 0 1].
Proof. reflexivity. Qed.

(** ** Malformed lines *)

Lemma bien_o_mal_formada int linea :
  bien_formada int linea \/ mal_formada int linea.
Proof.
  destruct (convertir int linea) as [uso|e] eqn:Hc.
  - left. apply convertir_bien_formada. eauto.
  - right. apply convertir_mal_formada. eauto.
Qed.

Lemma primera_mal_formada int lineas :
  Exists (mal_formada int) lineas ->
  exists antes mala despues,
    lineas = antes ++ mala :: despues
    /\ Forall (bien_formada int) antes /\ mal_formada int mala.
Proof.
  induction lineas as [|linea resto IH]; intros Hex; [by apply Exists_nil in Hex|].
  destruct (bien_o_mal_formada int linea) as [Hbien|Hmal].
  - apply Exists_cons in Hex as [Hmal|Hresto].
    + exists [], linea, resto. by repeat split.
    + destruct (IH Hresto) as (antes & mala & despues & -> & Hantes & Hmala).
      exists (linea :: antes), mala, despues. split; [done|].
      split; [by constructor|done].
  - exists [], linea, resto. by repeat split.
Qed.

(** C9 (amended).  A line is malformed when it has fewer than five fields
    or when field 0, 2 or 4 is not an integer.  If the lines after the
    header contain a malformed one, the pass returns no registry: it raises
    the exception that [convertir] raises on the first malformed line, and
    what follows that line has no influence on the outcome. *)
Theorem lectura_aborta int cabecera lineas :
  Exists (mal_formada int) lineas ->
  exists antes mala despues e,
    lineas = antes ++ mala :: despues
    /\ Forall (bien_formada int) antes
    /\ convertir int mala = Raise e
    /\ obtener_usos_por_usuario_from_file int (cabecera :: lineas) = Raise e
    /\ forall otras,
         obtener_usos_por_usuario_from_file int
           (cabecera :: antes ++ mala :: otras) = Raise e.
Proof.
  intros Hex.
  destruct (primera_mal_formada int lineas Hex)
    as (antes & mala & despues & -> & Hantes & Hmala).
  apply convertir_mal_formada in Hmala as [e He].
  exists antes, mala, despues, e. do 3 (split; [done|]).
  unfold obtener_usos_por_usuario_from_file. simpl.
  split; [|intros otras]; by apply para_cada_linea_aborta; [apply creciente_nil| |].
Qed.

Lemma dos_campos_mal_formada : mal_formada int_decimal "10;x".
Proof. left. simpl. lia. Defined.

Lemma lectura_aborta_testigo :
  Exists (mal_formada int_decimal) ["10;x;5;y;5"; "10;x"; "20;x;1;y;1"]%string
  /\ exists antes mala despues e,
       ["10;x;5;y;5"; "10;x"; "20;x;1;y;1"]%string = antes ++ mala :: despues
       /\ Forall (bien_formada int_decimal) antes
       /\ convertir int_decimal mala = Raise e
       /\ obtener_usos_por_usuario_from_file int_decimal
            ("cabecera"%string :: ["10;x;5;y;5"; "10;x"; "20;x;1;y;1"]%string)
          = Raise e
       /\ forall otras,
            obtener_usos_por_usuario_from_file int_decimal
              ("cabecera"%string :: antes ++ mala :: otras) = Raise e.
Proof.
  assert (H : Exists (mal_formada int_decimal)
                ["10;x;5;y;5"; "10;x"; "20;x;1;y;1"]%string).
  { apply Exists_cons_tl, Exists_cons_hd. exact dos_campos_mal_formada. }
  split; [exact H|].
  apply (lectura_aborta int_decimal "cabecera"
           ["10;x;5;y;5"; "10;x"; "20;x;1;y;1"]%string).
  exact H.
Defined.

(** C9, as stated, fails for a wrong field count by excess: a line of five
    fields and a line of six are both accepted, the sixth field being
    ignored, so whatever the expected count is, a line that does not have it
    is processed without error. *)
Lemma campos_de_sobra_no_aborta :
  length (split DELIMITADOR "1;a;2;b;3") = 5%nat
  /\ length (split DELIMITADOR "1;a;2;b;3;c") = 6%nat
  /\ obtener_usos_por_usuario_from_file int_decimal
       ["cabecera"; "1;a;2;b;3"; "1;a;2;b;3;c"]%string
     = Ok [mkUsuarioBizi 1 2 0].
Proof. by vm_compute. Qed.

(** ** Selection of the most active users *)

(** C6.  For a start index inside the list, the scan returns the left-most
    index of [usuarios[indice_inicial:]] whose total is maximal: no element
    from the start index on has a larger total, and every element between
    the start index and the returned one has a strictly smaller total. *)
Theorem buscar_indice_del_mayor_correcto l i :
  0 <= i < len l ->
  exists j uj,
    buscar_indice_del_mayor l i = Ok j
    /\ i <= j < len l
    /\ l !! Z.to_nat j = Some uj
    /\ (forall k u, i <= k < len l -> l !! Z.to_nat k = Some u ->
          num_usos_totales u <= num_usos_totales uj)
    /\ (forall k u, i <= k < j -> l !! Z.to_nat k = Some u ->
          num_usos_totales u < num_usos_totales uj).
Proof.
  intros Hi.
  destruct (buscar_indice_del_mayor_primer_maximo l i Hi)
    as (j & Hj & Hrango & uj & Huj & Hmayor & Hprimero).
  by exists j, uj.
Qed.

Lemma buscar_indice_del_mayor_correcto_testigo :
  0 <= 0 < len registro_ejemplo
  /\ exists j uj,
       buscar_indice_del_mayor registro_ejemplo 0 = Ok j
       /\ 0 <= j < len registro_ejemplo
       /\ registro_ejemplo !! Z.to_nat j = Some uj
       /\ (forall k u, 0 <= k < len registro_ejemplo ->
             registro_ejemplo !! Z.to_nat k = Some u ->
             num_usos_totales u <= num_usos_totales uj)
       /\ (forall k u, 0 <= k < j -> registro_ejemplo !! Z.to_nat k = Some u ->
             num_usos_totales u < num_usos_totales uj).
Proof.
  assert (H : 0 <= 0 < len registro_ejemplo) by (vm_compute; split; congruence).
  split; [exact H|]. apply (buscar_indice_del_mayor_correcto registro_ejemplo 0).
  exact H.
Defined.

(** Ties keep the left-most maximum: users 10 and 30 both total 2. *)
Example buscar_indice_del_mayor_empate :
  buscar_indice_del_mayor registro_ejemplo 0 = Ok 0.
Proof. reflexivity. Qed.

(** C7 (amended).  After [ordenar] the first [min num_ordenar (len l)] slots
    are in non-increasing order of total, and slot [i] of that prefix holds
    the record with the largest total among what occupied positions [i] to
    the end when the slot was fixed, that is in [ordenar l i], the registry
    after [i] iterations. *)
Theorem ordenar_prefijo l k :
  exists l',
    ordenar l k = Ok l'
    /\ (forall i j ui uj,
          0 <= i < j -> j < Z.min k (len l) ->
          l' !! Z.to_nat i = Some ui -> l' !! Z.to_nat j = Some uj ->
          num_usos_totales uj <= num_usos_totales ui)
    /\ (forall i,
          0 <= i < Z.min k (len l) ->
          exists li j r,
            ordenar l i = Ok li
            /\ buscar_indice_del_mayor li i = Ok j
            /\ li !! Z.to_nat j = Some r
            /\ l' !! Z.to_nat i = Some r
            /\ forall t u, i <= t < len li -> li !! Z.to_nat t = Some u ->
                 num_usos_totales u <= num_usos_totales r).
Proof.
  destruct (ordenar_total l k) as (l' & Hl' & Hfijo & Hperm).
  assert (Hlen : len l' = len l).
  { unfold len. by rewrite (Permutation_length Hperm). }
  exists l'. split; [done|]. split.
  - intros i j ui uj Hij Hj Hui Huj.
    apply (Hfijo i j ui uj); [lia|lia|done|done].
  - intros i Hi.
    destruct (ordenar_ranura l k i Hi)
      as (li & j & r & l'' & Hli & _ & Hj & Hmax & Hr & Hl'' & Hslot).
    assert (l'' = l') as -> by congruence.
    exists li, j, r. do 4 (split; [done|]).
    destruct Hmax as (_ & r' & Hr' & Hmayor & _).
    assert (r' = r) as -> by congruence. exact Hmayor.
Qed.

(** C7, as stated, fails: with totals [3; 2; 1] and [num_ordenar = 3], slot
    [2] is fixed when only one record, of total [1], lies from position [2]
    on; that slot ends with total [1], while a one-element list has no 2nd
    largest value, whether ranks are counted from 0 or from 1.  Slot [1]
    likewise ends with total [2], the largest and not the second largest of
    the totals [2; 1] then lying from position [1] on. *)
Lemma ordenar_no_i_esimo :
  ordenar registro_descendente 3 = Ok registro_descendente
  /\ ordenar registro_descendente 2 = Ok registro_descendente
  /\ ordenar registro_descendente 1 = Ok registro_descendente
  /\ num_usos_totales <$> registro_descendente !! 2%nat = Some 1
  /\ i_esimo_mayor (num_usos_totales <$> drop 2 registro_descendente) 2 = None
  /\ i_esimo_mayor (num_usos_totales <$> drop 2 registro_descendente) 1 = None
  /\ num_usos_totales <$> registro_descendente !! 1%nat = Some 2
  /\ i_esimo_mayor (num_usos_totales <$> drop 1 registro_descendente) 1 = Some 1
  /\ ~ (forall i : nat, (i < 3)%nat ->
        exists l' li,
          ordenar registro_descendente 3 = Ok l'
          /\ ordenar registro_descendente (Z.of_nat i) = Ok li
          /\ num_usos_totales <$> l' !! i
               = i_esimo_mayor (num_usos_totales <$> drop i li) i).
Proof.
  do 8 (split; [by vm_compute|]).
  intros H. destruct (H 2%nat ltac:(lia)) as (l' & li & Hl' & Hli & Hrango).
  vm_compute in Hl', Hli. injection Hl' as <-. injection Hli as <-.
  by vm_compute in Hrango.
Qed.

(** C10.  [ordenar] only exchanges whole records: it always returns, and
    the list it leaves is a permutation of the one it received, of the same
    length, so every record is still there with its three fields. *)
Theorem ordenar_permutacion l k :
  exists l', ordenar l k = Ok l' /\ l' ≡ₚ l /\ length l' = length l.
Proof.
  destruct (ordenar_total l k) as (l' & Hl' & _ & Hperm).
  exists l'. split; [done|]. split; [done|]. by rewrite Hperm.
Qed.

Lemma ordenar_cero l : ordenar l 0 = Ok l.
Proof.
  rewrite ordenar_seqZ. pose proof (len_nonneg l).
  by replace (Z.min 0 (len l)) with 0 by lia.
Qed.

Lemma ordenar_min l k : ordenar l k = ordenar l (Z.min k (len l)).
Proof.
  rewrite !ordenar_seqZ.
  by replace (Z.min (Z.min k (len l)) (len l)) with (Z.min k (len l)) by lia.
Qed.

(** One more slot is one more iteration: a scan from [i], then the
    exchange. *)
Lemma ordenar_siguiente l i li j :
  0 <= i < len l -> ordenar l i = Ok li ->
  buscar_indice_del_mayor li i = Ok j ->
  ordenar l (i + 1) = intercambiar li i j.
Proof.
  intros Hi Hli Hj. rewrite ordenar_seqZ in Hli |- *.
  replace (Z.of_nat (Z.to_nat (Z.min i (len l)))) with i in Hli by lia.
  replace (Z.of_nat (Z.to_nat (Z.min (i + 1) (len l)))) with (i + 1) by lia.
  rewrite seqZ_app by lia. rewrite ordenar_para_app, Hli. cbn [ligar].
  rewrite Z.add_0_l. rewrite seqZ_cons by lia. rewrite seqZ_nil by lia.
  cbn [ordenar_para]. rewrite Hj. cbn [ligar].
  by destruct (intercambiar li i j).
Qed.

(** C8.  For any [num_ordenar >= 0], also beyond the length, [ordenar]
    returns without raising and leaves the length unchanged.  It fixes
    exactly [min num_ordenar (len l)] slots: asking for no slot returns the
    list as it is, asking for more than the length is asking for the
    length, and each index [i] of the loop, which lies inside the list,
    adds to [ordenar l i] one scan from [i] and one exchange, giving
    [ordenar l (i + 1)]; the indices read by the scan and the one it returns
    are inside the list, and what the exchange brings to slot [i] stays
    there.  At the end each of those first slots holds a total that no
    later slot exceeds, and when [num_ordenar] is at least the length the
    whole list is in non-increasing order of total. *)
Theorem ordenar_bien_definido l k :
  0 <= k ->
  exists l',
    ordenar l k = Ok l'
    /\ len l' = len l
    /\ length (range 0 (Z.min k (len l))) = Z.to_nat (Z.min k (len l))
    /\ ordenar l 0 = Ok l
    /\ ordenar l k = ordenar l (Z.min k (len l))
    /\ (forall i, i ∈ range 0 (Z.min k (len l)) ->
          0 <= i < len l
          /\ exists li j,
               ordenar l i = Ok li /\ len li = len l
               /\ (forall t, t ∈ range (i + 1) (len li) -> 0 <= t < len li)
               /\ buscar_indice_del_mayor li i = Ok j
               /\ i <= j < len li
               /\ ordenar l (i + 1) = intercambiar li i j
               /\ is_Some (li !! Z.to_nat j)
               /\ l' !! Z.to_nat i = li !! Z.to_nat j)
    /\ (forall i j ui uj,
          0 <= i < Z.min k (len l) -> i <= j < len l ->
          l' !! Z.to_nat i = Some ui -> l' !! Z.to_nat j = Some uj ->
          num_usos_totales uj <= num_usos_totales ui)
    /\ (len l <= k ->
        forall i j ui uj,
          0 <= i <= j -> j < len l ->
          l' !! Z.to_nat i = Some ui -> l' !! Z.to_nat j = Some uj ->
          num_usos_totales uj <= num_usos_totales ui).
Proof.
  intros Hk. pose proof (len_nonneg l) as Hn.
  destruct (ordenar_total l k) as (l' & Hl' & Hfijo & Hperm).
  assert (Hlen : len l' = len l).
  { unfold len. by rewrite (Permutation_length Hperm). }
  exists l'. split; [done|]. split; [done|].
  split; [unfold range; rewrite length_seqZ; f_equal; lia|].
  split; [apply ordenar_cero|]. split; [apply ordenar_min|].
  split; [|split].
  - intros i Hi. unfold range in Hi. apply elem_of_seqZ in Hi.
    split; [lia|].
    destruct (ordenar_ranura l k i ltac:(lia))
      as (li & j & r & l'' & Hli & Hleni & Hj & Hmax & Hr & Hl'' & Hslot).
    assert (l'' = l') as -> by congruence.
    exists li, j. do 2 (split; [done|]). split.
    { intros t Ht. unfold range in Ht. apply elem_of_seqZ in Ht. lia. }
    split; [done|]. split; [by destruct Hmax as [Hrango _]|].
    split; [apply ordenar_siguiente; (done || lia)|].
    split; [by exists r|congruence].
  - intros i j ui uj Hi Hj Hui Huj.
    apply (Hfijo i j ui uj); [lia|lia|done|done].
  - intros Hkn i j ui uj Hij Hj Hui Huj.
    apply (Hfijo i j ui uj); [lia|lia|done|done].
Qed.

Lemma ordenar_bien_definido_testigo :
  0 <= 15
  /\ exists l',
       ordenar registro_ejemplo 15 = Ok l'
       /\ len l' = len registro_ejemplo
       /\ length (range 0 (Z.min 15 (len registro_ejemplo)))
            = Z.to_nat (Z.min 15 (len registro_ejemplo))
       /\ ordenar registro_ejemplo 0 = Ok registro_ejemplo
       /\ ordenar registro_ejemplo 15
            = ordenar registro_ejemplo (Z.min 15 (len registro_ejemplo))
       /\ (forall i, i ∈ range 0 (Z.min 15 (len registro_ejemplo)) ->
             0 <= i < len registro_ejemplo
             /\ exists li j,
                  ordenar registro_ejemplo i = Ok li
                  /\ len li = len registro_ejemplo
                  /\ (forall t, t ∈ range (i + 1) (len li) -> 0 <= t < len li)
                  /\ buscar_indice_del_mayor li i = Ok j
                  /\ i <= j < len li
                  /\ ordenar registro_ejemplo (i + 1) = intercambiar li i j
                  /\ is_Some (li !! Z.to_nat j)
                  /\ l' !! Z.to_nat i = li !! Z.to_nat j)
       /\ (forall i j ui uj,
             0 <= i < Z.min 15 (len registro_ejemplo) ->
             i <= j < len registro_ejemplo ->
             l' !! Z.to_nat i = Some ui -> l' !! Z.to_nat j = Some uj ->
             num_usos_totales uj <= num_usos_totales ui)
       /\ (len registro_ejemplo <= 15 ->
           forall i j ui uj,
             0 <= i <= j -> j < len registro_ejemplo ->
             l' !! Z.to_nat i = Some ui -> l' !! Z.to_nat j = Some uj ->
             num_usos_totales uj <= num_usos_totales ui).
Proof.
  assert (H : 0 <= 15) by lia.
  split; [exact H|]. apply (ordenar_bien_definido registro_ejemplo 15). exact H.
Defined.

(** The tie-break example of the spec: three users of equal total keep
    their order. *)
Example ordenar_empates :
  ordenar [mkUsuarioBizi 3 3 0; mkUsuarioBizi 5 2 1; mkUsuarioBizi 9 0 3] 3
  = Ok [mkUsuarioBizi 3 3 0; mkUsuarioBizi 5 2 1; mkUsuarioBizi 9 0 3].
Proof. reflexivity. Qed.

Example ordenar_ejemplo :
  ordenar registro_ejemplo NUM_MOSTRAR
  = Ok [mkUsuarioBizi 10 1 1; mkUsuarioBizi 30 2 0; mkUsuarioBizi 20 0 1].
Proof. reflexivity. Qed.


(** * Further properties *)

(** ** [buscar] and [ubicar] on arbitrary lists *)

Lemma buscar_mientras_en_rango l x inf sup :
  0 <= inf <= sup -> sup < len l ->
  exists r, buscar_mientras l x inf sup = Ok r /\ inf <= r <= sup.
Proof.
  funelim (buscar_mientras l x inf sup); intros Hrango Hsup.
  all: try (pose proof (Z.div_mod (inf + sup) 2 ltac:(lia)) as Hdiv;
            pose proof (Z.mod_pos_bound (inf + sup) 2 ltac:(lia)) as Hmod).
  - exists inf. split; [done|lia].
  - destruct (getitem_en_rango usuarios ((inf + sup) `div` 2)) as (u & _ & Hu);
      [lia|congruence].
  - destruct H as (r & Hr & Hcotas); [lia|lia|]. exists r. split; [done|lia].
  - destruct H as (r & Hr & Hcotas); [lia|lia|]. exists r. split; [done|lia].
Qed.

Lemma buscar_forma l x :
  (l = [] /\ buscar l x = Ok (false, 0))
  \/ exists r u,
       0 <= r < len l /\ l !! Z.to_nat r = Some u
       /\ buscar l x = Ok (x =? id u, r).
Proof.
  unfold buscar. pose proof (len_nonneg l) as Hn.
  destruct (Z.eqb_spec (len l) 0) as [H0|H0].
  { left. split; [|done]. apply length_zero_iff_nil. unfold len in H0. lia. }
  right.
  destruct (buscar_mientras_en_rango l x 0 (len l - 1)) as (r & -> & Hr);
    [lia|lia|]. simpl.
  destruct (getitem_en_rango l r) as (u & Hl & ->); [lia|]. simpl.
  exists r, u. split; [lia|done].
Qed.

(** X1.  [buscar] needs no precondition to be safe: on any list, sorted or not,
    it returns without raising, the index lies between [0] and the last
    position, and a [True] answer always points at a record that carries
    the searched identifier. *)
Theorem buscar_nunca_falla l x :
  exists esta i,
    buscar l x = Ok (esta, i)
    /\ 0 <= i <= Z.max 0 (len l - 1)
    /\ (esta = true ->
        exists u, l !! Z.to_nat i = Some u /\ id u = x).
Proof.
  destruct (buscar_forma l x) as [[-> Hb]|(r & u & Hr & Hl & Hb)].
  - exists false, 0. split; [done|]. split; [|done]. unfold len. simpl. lia.
  - exists (x =? id u), r. split; [done|]. split; [lia|].
    intros Heq%Z.eqb_eq. by exists u.
Qed.

(** X2.  [ubicar] on any list, sorted or not: it returns without raising; either
    the list is left as it was or exactly one record, with both counters at
    [0], has been inserted somewhere in it; and the returned index is a
    valid position of the resulting list whose record carries the requested
    identifier. *)
Theorem ubicar_nunca_falla l x :
  exists l' i u,
    ubicar l x = Ok (l', i)
    /\ 0 <= i < len l'
    /\ l' !! Z.to_nat i = Some u /\ id u = x
    /\ (l' = l
        \/ exists l1 l2, l = l1 ++ l2 /\ l' = l1 ++ mkUsuarioBizi x 0 0 :: l2
                          /\ i = len l1).
Proof.
  pose proof (len_nonneg l) as Hn.
  assert (Hins : forall p, 0 <= p <= len l ->
      exists l' i u,
        Ok (list_insert l p (mkUsuarioBizi x 0 0), p) = Ok (l', i)
        /\ 0 <= i < len l'
        /\ l' !! Z.to_nat i = Some u /\ id u = x
        /\ (l' = l
            \/ exists l1 l2, l = l1 ++ l2
                  /\ l' = l1 ++ mkUsuarioBizi x 0 0 :: l2 /\ i = len l1)).
  { intros p Hp. rewrite list_insert_en_rango by done.
    assert (Hlen : length (take (Z.to_nat p) l) = Z.to_nat p).
    { apply length_take_le. unfold len in Hp. lia. }
    eexists _, p, (mkUsuarioBizi x 0 0). split; [done|]. split; [|split; [|split]].
    - unfold len in *. rewrite length_app, Hlen. simpl. lia.
    - rewrite <- Hlen at 1. by rewrite list_lookup_middle.
    - done.
    - right. eexists _, _. split; [by rewrite take_drop|]. split; [done|].
      unfold len. rewrite Hlen. lia. }
  unfold ubicar.
  destruct (buscar_forma l x) as [[-> Hb]|(r & u & Hr & Hl & Hb)]; rewrite Hb; simpl.
  - apply (Hins 0). unfold len. simpl. lia.
  - destruct (Z.eqb_spec x (id u)) as [Heq|Hne].
    + exists l, r, u. split; [done|]. split; [lia|]. split; [done|]. split; [done|by left].
    + destruct (Z.eqb_spec r (len l - 1)) as [Hult|Hult]; simpl.
      * rewrite (getitem_lookup l r u) by (done || lia). simpl.
        destruct (x >? id u); apply Hins; lia.
      * apply Hins. lia.
Qed.

(** ** Insert then look up *)

Lemma creciente_indice_unico l (i j : nat) a b :
  creciente l -> l !! i = Some a -> l !! j = Some b -> id a = id b -> i = j.
Proof.
  intros Hs Hi Hj Hid.
  destruct (Nat.lt_trichotomy i j) as [Hlt|[Heq|Hgt]]; [|done|].
  - pose proof (creciente_lookup l i j a b Hs Hi Hj Hlt). lia.
  - pose proof (creciente_lookup l j i b a Hs Hj Hi Hgt). lia.
Qed.

(** X3.  On a strictly increasing registry, what [ubicar] returns is what a
    search finds afterwards: [buscar] on the resulting list answers [True]
    with the same index, and a second [ubicar] changes nothing and returns
    that index again. *)
Theorem ubicar_luego_buscar l x l' i :
  creciente l -> ubicar l x = Ok (l', i) ->
  creciente l' /\ buscar l' x = Ok (true, i) /\ ubicar l' x = Ok (l', i).
Proof.
  intros Hs Hub. pose proof (punto_de_insercion_cotas l x) as Hp.
  assert (Hres : creciente l' /\ 0 <= i
                 /\ exists u, l' !! Z.to_nat i = Some u /\ id u = x).
  { destruct (classic_presente x l) as [Hx|Hx].
    - destruct (ubicar_presente l x Hs Hx) as (Hub1 & u & Hl & Hid).
      assert (l' = l /\ i = punto_de_insercion l x) as [-> ->]
        by (split; congruence).
      split; [done|]. split; [lia|]. by exists u.
    - rewrite (ubicar_ausente l x Hs Hx) in Hub. injection Hub as <- <-.
      split; [by apply creciente_insertar|]. split; [lia|].
      exists (mkUsuarioBizi x 0 0). split; [|done].
      assert (Hlen : length (take (Z.to_nat (punto_de_insercion l x)) l)
                     = Z.to_nat (punto_de_insercion l x)).
      { apply length_take_le. unfold len in Hp. lia. }
      rewrite <- Hlen at 1. by rewrite list_lookup_middle. }
  destruct Hres as (Hs' & Hi & u & Hl & Hid).
  assert (Hx' : presente x l').
  { exists u. split; [by eapply list_elem_of_lookup_2|done]. }
  split; [done|].
  destruct (ubicar_presente l' x Hs' Hx') as (Hub' & u' & Hl' & Hid').
  pose proof (punto_de_insercion_cotas l' x) as Hp'.
  assert (Hpi : punto_de_insercion l' x = i).
  { pose proof (creciente_indice_unico l' _ _ u' u Hs' Hl' Hl ltac:(lia)). lia. }
  rewrite Hpi in Hub'. split; [|done].
  destruct (buscar_creciente l' x Hs') as (esta & Hb & Hesta & _).
  apply Hesta in Hx'. subst esta. rewrite Hb, Hpi. do 2 f_equal.
  apply lookup_lt_Some in Hl. unfold len. lia.
Qed.

Lemma ubicar_luego_buscar_testigo :
  (creciente registro_ejemplo
   /\ ubicar registro_ejemplo 25
      = Ok ([mkUsuarioBizi 10 1 1; mkUsuarioBizi 20 0 1; mkUsuarioBizi 25 0 0;
             mkUsuarioBizi 30 2 0], 2))
  /\ (creciente [mkUsuarioBizi 10 1 1; mkUsuarioBizi 20 0 1; mkUsuarioBizi 25 0 0;
                 mkUsuarioBizi 30 2 0]
      /\ buscar [mkUsuarioBizi 10 1 1; mkUsuarioBizi 20 0 1; mkUsuarioBizi 25 0 0;
                 mkUsuarioBizi 30 2 0] 25 = Ok (true, 2)
      /\ ubicar [mkUsuarioBizi 10 1 1; mkUsuarioBizi 20 0 1; mkUsuarioBizi 25 0 0;
                 mkUsuarioBizi 30 2 0] 25
         = Ok ([mkUsuarioBizi 10 1 1; mkUsuarioBizi 20 0 1; mkUsuarioBizi 25 0 0;
                mkUsuarioBizi 30 2 0], 2)).
Proof.
  assert (H : creciente registro_ejemplo)
    by (unfold creciente, registro_ejemplo; repeat constructor; simpl; lia).
  assert (Hub : ubicar registro_ejemplo 25
      = Ok ([mkUsuarioBizi 10 1 1; mkUsuarioBizi 20 0 1; mkUsuarioBizi 25 0 0;
             mkUsuarioBizi 30 2 0], 2)) by reflexivity.
  split; [by split|].
  exact (ubicar_luego_buscar registro_ejemplo 25 _ 2 H Hub).
Defined.

(** ** What the registry holds after the pass *)

Lemma registro_de_id l x u : registro_de l x = Some u -> id u = x.
Proof.
  induction l as [|a l IH]; simpl; [done|].
  destruct (Z.eqb_spec (id a) x); [by intros [= <-]|done].
Qed.

Lemma registro_de_elem_of l x u : registro_de l x = Some u -> u ∈ l.
Proof.
  induction l as [|a l IH]; simpl; [done|].
  destruct (Z.eqb_spec (id a) x); [intros [= <-]; by left|right; auto].
Qed.

Lemma registro_de_None l x : registro_de l x = None <-> ~ presente x l.
Proof.
  induction l as [|a l IH]; simpl.
  - split; [|done]. intros _ (u & Hu & _). by apply elem_of_nil in Hu.
  - destruct (Z.eqb_spec (id a) x) as [Heq|Hne].
    + split; [done|]. intros H. destruct H. exists a. split; [by left|done].
    + rewrite IH. split.
      * intros H (u & [->|Hu]%elem_of_cons & Hid); [done|]. apply H. by exists u.
      * intros H (u & Hu & Hid). apply H. exists u. split; [by right|done].
Qed.

Lemma registro_de_app l1 l2 x :
  registro_de (l1 ++ l2) x =
    match registro_de l1 x with
    | Some u => Some u
    | None => registro_de l2 x
    end.
Proof.
  induction l1 as [|a l1 IH]; simpl; [done|]. by destruct (id a =? x).
Qed.

Lemma registro_de_medio l1 v l2 x :
  registro_de (l1 ++ v :: l2) x =
    match registro_de l1 x with
    | Some u => Some u
    | None => if id v =? x then Some v else registro_de l2 x
    end.
Proof. by rewrite registro_de_app. Qed.

Lemma registro_de_menores l x :
  Forall (fun u => id u < x) l -> registro_de l x = None.
Proof.
  intros H. apply registro_de_None. intros (u & Hu & Hid).
  rewrite Forall_forall in H. specialize (H u Hu). lia.
Qed.

(** The effect of one event on the record of every user. *)
Lemma contabilizar_registro l uso :
  creciente l ->
  exists l', contabilizar l uso = Ok l' /\ creciente l'
    /\ forall x,
         registro_de l' x =
           if x =? id_usuario uso then
             Some (incremento uso
                     (default (mkUsuarioBizi x 0 0) (registro_de l x)))
           else registro_de l x.
Proof.
  intros Hs.
  destruct (contabilizar_invariante l uso Hs) as (l' & Hc & Hs' & _).
  exists l'. split; [done|]. split; [done|]. intros x.
  destruct (creciente_particion l (id_usuario uso) Hs) as [Hantes _].
  set (p := Z.to_nat (punto_de_insercion l (id_usuario uso))) in *.
  destruct (classic_presente (id_usuario uso) l) as [Hx|Hx].
  - destruct (contabilizar_presente l uso Hs Hx) as (u & Hl & Hid & Hc').
    fold p in Hl, Hc'. pose proof (lookup_lt_Some _ _ _ Hl) as Hlt.
    assert (l' = take p l ++ incremento uso u :: drop (S p) l) as ->.
    { rewrite <- insert_take_drop by done. congruence. }
    assert (Hl0 : forall y,
              registro_de l y = registro_de (take p l ++ u :: drop (S p) l) y)
      by (intros y; by rewrite take_drop_middle).
    rewrite Hl0, !registro_de_medio, id_incremento.
    destruct (Z.eqb_spec x (id_usuario uso)) as [->|Hne].
    + rewrite registro_de_menores by done.
      rewrite Hid, Z.eqb_refl. reflexivity.
    + destruct (registro_de (take p l) x); [done|].
      destruct (Z.eqb_spec (id u) x); [lia|done].
  - rewrite (contabilizar_ausente l uso Hs Hx) in Hc. fold p in Hc.
    injection Hc as <-.
    rewrite registro_de_medio, id_incremento. simpl.
    destruct (Z.eqb_spec x (id_usuario uso)) as [->|Hne].
    + rewrite registro_de_menores by done. rewrite Z.eqb_refl.
      apply registro_de_None in Hx. by rewrite Hx.
    + replace (registro_de l x)
        with (registro_de (take p l ++ drop p l) x) by (by rewrite take_drop).
      rewrite registro_de_app.
      destruct (registro_de (take p l) x); [done|].
      destruct (Z.eqb_spec (id_usuario uso) x); [lia|done].
Qed.

Lemma acumulado_paso l uso resto x :
  acumulado
    (if x =? id_usuario uso then
       Some (incremento uso (default (mkUsuarioBizi x 0 0) (registro_de l x)))
     else registro_de l x) x resto
  = acumulado (registro_de l x) x (uso :: resto).
Proof.
  unfold acumulado, incremento. simpl.
  destruct (Z.eqb_spec x (id_usuario uso)) as [->|Hne].
  - rewrite Z.eqb_refl. simpl.
    rewrite bool_decide_eq_true_2 by (by left).
    destruct (registro_de l (id_usuario uso)) as [u|]; simpl;
      destruct (estacion_retirada uso =? estacion_devolucion uso); simpl;
      f_equal; f_equal; lia.
  - destruct (Z.eqb_spec (id_usuario uso) x); [lia|]. simpl.
    destruct (registro_de l x) as [u|]; [done|].
    destruct (decide (x ∈ id_usuario <$> resto)) as [Hin|Hnin].
    + rewrite !bool_decide_eq_true_2; [done|by right|done].
    + rewrite !bool_decide_eq_false_2; [done| |done].
      by intros [?|?]%elem_of_cons.
Qed.

Section Cuentas.

Variable int : string -> option Z.

Lemma para_cada_linea_registro lineas : forall usos l,
  Forall2 (fun linea uso => convertir int linea = Ok uso) lineas usos ->
  creciente l ->
  exists l', para_cada_linea int l lineas = Ok l' /\ creciente l'
    /\ forall x, registro_de l' x = acumulado (registro_de l x) x usos.
Proof.
  induction lineas as [|linea resto IH]; intros usos l Hconv Hs.
  - apply Forall2_nil_inv_l in Hconv as ->. exists l.
    split; [done|]. split; [done|]. intros x. unfold acumulado. simpl.
    destruct (registro_de l x) as [u|] eqn:Hu; [|done].
    apply registro_de_id in Hu as <-. destruct u. simpl. f_equal. f_equal; lia.
  - apply Forall2_cons_inv_l in Hconv as (uso & usos' & Huso & Hresto & ->).
    simpl. rewrite Huso. simpl.
    destruct (contabilizar_registro l uso Hs) as (l1 & -> & Hs1 & Hreg1). simpl.
    destruct (IH usos' l1 Hresto Hs1) as (l' & -> & Hs' & Hreg').
    exists l'. split; [done|]. split; [done|]. intros x.
    by rewrite Hreg', Hreg1, acumulado_paso.
Qed.

End Cuentas.

(** X4.  The registry returned by the pass is exactly the table of per-user
    counts of the events read: strictly increasing by [id], with a record
    for a user if and only if some event is theirs, whose transit counter
    is the number of their events between different stations and whose
    circular counter is the number of their events that return to the
    station of departure. *)
Theorem obtener_usos_cuentas int f usos :
  Forall2 (fun linea uso => convertir int linea = Ok uso) (tail f) usos ->
  exists usuarios,
    obtener_usos_por_usuario_from_file int f = Ok usuarios
    /\ creciente usuarios
    /\ forall x,
         registro_de usuarios x =
           if bool_decide (x ∈ id_usuario <$> usos) then
             Some (mkUsuarioBizi x (traslados_de x usos) (circulares_de x usos))
           else None.
Proof.
  intros Hconv. unfold obtener_usos_por_usuario_from_file.
  destruct (para_cada_linea_registro int (tail f) usos [] Hconv creciente_nil)
    as (l' & Hl' & Hs' & Hreg).
  exists l'. split; [done|]. split; [done|]. intros x. by rewrite Hreg.
Qed.

Lemma obtener_usos_cuentas_testigo :
  Forall2 (fun linea uso => convertir int_decimal linea = Ok uso)
    (tail fichero_ejemplo)
    [mkUsoBizi 10 5 5; mkUsoBizi 10 5 9; mkUsoBizi 20 1 1]
  /\ exists usuarios,
       obtener_usos_por_usuario_from_file int_decimal fichero_ejemplo = Ok usuarios
       /\ creciente usuarios
       /\ forall x,
            registro_de usuarios x =
              if bool_decide
                   (x ∈ id_usuario <$>
                      [mkUsoBizi 10 5 5; mkUsoBizi 10 5 9; mkUsoBizi 20 1 1])
              then
                Some (mkUsuarioBizi x
                        (traslados_de x
                           [mkUsoBizi 10 5 5; mkUsoBizi 10 5 9; mkUsoBizi 20 1 1])
                        (circulares_de x
                           [mkUsoBizi 10 5 5; mkUsoBizi 10 5 9; mkUsoBizi 20 1 1]))
              else None.
Proof.
  assert (H : Forall2 (fun linea uso => convertir int_decimal linea = Ok uso)
                (tail fichero_ejemplo)
                [mkUsoBizi 10 5 5; mkUsoBizi 10 5 9; mkUsoBizi 20 1 1])
    by (unfold fichero_ejemplo; simpl; repeat constructor).
  split; [exact H|].
  exact (obtener_usos_cuentas int_decimal fichero_ejemplo _ H).
Defined.

Lemma presente_fmap x l : presente x l <-> x ∈ id <$> l.
Proof.
  unfold presente. rewrite list_elem_of_fmap. split.
  - intros (u & Hu & Hid). by exists u.
  - intros (u & Hid & Hu). by exists u.
Qed.

Lemma registro_distintos l usos :
  creciente l ->
  (forall x, registro_de l x = acumulado (registro_de [] x) x usos) ->
  (forall x, x ∈ id <$> l <-> x ∈ id_usuario <$> usos)
  /\ length l = length (remove_dups (id_usuario <$> usos)).
Proof.
  intros Hs Hreg.
  assert (Hids : forall x, x ∈ id <$> l <-> x ∈ id_usuario <$> usos).
  { intros x. rewrite <- presente_fmap. specialize (Hreg x).
    unfold acumulado in Hreg. simpl in Hreg.
    destruct (decide (x ∈ id_usuario <$> usos)) as [Hin|Hnin].
    - rewrite bool_decide_eq_true_2 in Hreg by done. split; [done|]. intros _.
      destruct (classic_presente x l) as [Hx|Hx]; [done|].
      apply registro_de_None in Hx. congruence.
    - rewrite bool_decide_eq_false_2 in Hreg by done.
      apply registro_de_None in Hreg. tauto. }
  split; [done|].
  rewrite <- (length_fmap id l). apply Permutation_length.
  apply NoDup_Permutation; [by apply creciente_NoDup|apply NoDup_remove_dups|].
  intros x. by rewrite Hids, elem_of_remove_dups.
Qed.

(** X5.  The registry has one record per distinct user of the events read: its
    identifiers are those of the events, none repeated, so its length is
    the number of distinct users. *)
Theorem obtener_usos_distintos int f usos :
  Forall2 (fun linea uso => convertir int linea = Ok uso) (tail f) usos ->
  exists usuarios,
    obtener_usos_por_usuario_from_file int f = Ok usuarios
    /\ NoDup (id <$> usuarios)
    /\ (forall x, x ∈ id <$> usuarios <-> x ∈ id_usuario <$> usos)
    /\ length usuarios = length (remove_dups (id_usuario <$> usos)).
Proof.
  intros Hconv. unfold obtener_usos_por_usuario_from_file.
  destruct (para_cada_linea_registro int (tail f) usos [] Hconv creciente_nil)
    as (l & Hl & Hs & Hreg).
  exists l. split; [done|]. split; [by apply creciente_NoDup|].
  by apply registro_distintos.
Qed.

Lemma obtener_usos_distintos_testigo :
  Forall2 (fun linea uso => convertir int_decimal linea = Ok uso)
    (tail fichero_ejemplo)
    [mkUsoBizi 10 5 5; mkUsoBizi 10 5 9; mkUsoBizi 20 1 1]
  /\ exists usuarios,
       obtener_usos_por_usuario_from_file int_decimal fichero_ejemplo = Ok usuarios
       /\ NoDup (id <$> usuarios)
       /\ (forall x, x ∈ id <$> usuarios <->
             x ∈ id_usuario <$>
                 [mkUsoBizi 10 5 5; mkUsoBizi 10 5 9; mkUsoBizi 20 1 1])
       /\ length usuarios
          = length (remove_dups
                      (id_usuario <$>
                         [mkUsoBizi 10 5 5; mkUsoBizi 10 5 9; mkUsoBizi 20 1 1])).
Proof.
  assert (H : Forall2 (fun linea uso => convertir int_decimal linea = Ok uso)
                (tail fichero_ejemplo)
                [mkUsoBizi 10 5 5; mkUsoBizi 10 5 9; mkUsoBizi 20 1 1])
    by (unfold fichero_ejemplo; simpl; repeat constructor).
  split; [exact H|].
  exact (obtener_usos_distintos int_decimal fichero_ejemplo _ H).
Defined.

(** Two strictly increasing registries that hold the same record for every
    identifier are the same list. *)
Lemma registro_de_creciente l u :
  creciente l -> u ∈ l -> registro_de l (id u) = Some u.
Proof.
  intros Hs Hu. destruct (registro_de l (id u)) as [v|] eqn:Hv.
  - pose proof (registro_de_id _ _ _ Hv) as Hid.
    apply registro_de_elem_of in Hv.
    apply list_elem_of_lookup_1 in Hu as [i Hi].
    apply list_elem_of_lookup_1 in Hv as [j Hj].
    pose proof (creciente_indice_unico l j i v u Hs Hj Hi Hid) as ->. congruence.
  - apply registro_de_None in Hv. destruct Hv. by exists u.
Qed.

Lemma creciente_NoDup_registros l : creciente l -> NoDup l.
Proof. intros Hs. eapply NoDup_fmap_1, creciente_NoDup, Hs. Qed.

Lemma creciente_ext l1 l2 :
  creciente l1 -> creciente l2 ->
  (forall x, registro_de l1 x = registro_de l2 x) -> l1 = l2.
Proof.
  intros Hs1 Hs2 Hreg.
  apply (StronglySorted_unique_strong (fun u v => id u < id v)); [|done|done|].
  - intros u v _ _ Huv Hvu. lia.
  - apply NoDup_Permutation; [by apply creciente_NoDup_registros..|].
    intros u. split; intros Hu.
    + apply (registro_de_elem_of l2 (id u)). rewrite <- Hreg.
      by apply registro_de_creciente.
    + apply (registro_de_elem_of l1 (id u)). rewrite Hreg.
      by apply registro_de_creciente.
Qed.

Lemma traslados_de_Permutation x usos usos' :
  usos ≡ₚ usos' -> traslados_de x usos = traslados_de x usos'.
Proof. induction 1; simpl; lia. Qed.

Lemma circulares_de_Permutation x usos usos' :
  usos ≡ₚ usos' -> circulares_de x usos = circulares_de x usos'.
Proof. induction 1; simpl; lia. Qed.

(** X6.  The order of the lines does not matter: two files whose events are the
    same up to order produce the same registry. *)
Theorem obtener_usos_orden_indiferente int f g usos usos' :
  Forall2 (fun linea uso => convertir int linea = Ok uso) (tail f) usos ->
  Forall2 (fun linea uso => convertir int linea = Ok uso) (tail g) usos' ->
  usos ≡ₚ usos' ->
  exists usuarios,
    obtener_usos_por_usuario_from_file int f = Ok usuarios
    /\ obtener_usos_por_usuario_from_file int g = Ok usuarios.
Proof.
  intros Hf Hg Hperm. unfold obtener_usos_por_usuario_from_file.
  destruct (para_cada_linea_registro int (tail f) usos [] Hf creciente_nil)
    as (l1 & Hl1 & Hs1 & Hreg1).
  destruct (para_cada_linea_registro int (tail g) usos' [] Hg creciente_nil)
    as (l2 & Hl2 & Hs2 & Hreg2).
  exists l1. split; [done|]. rewrite Hl2. f_equal. symmetry.
  apply creciente_ext; [done|done|]. intros x. rewrite Hreg1, Hreg2.
  unfold acumulado. simpl.
  rewrite (traslados_de_Permutation x _ _ Hperm).
  rewrite (circulares_de_Permutation x _ _ Hperm).
  destruct (decide (x ∈ id_usuario <$> usos)) as [Hin|Hnin].
  - rewrite !bool_decide_eq_true_2; [done| |done]. by rewrite <- Hperm.
  - rewrite !bool_decide_eq_false_2; [done| |done]. by rewrite <- Hperm.
Qed.

Lemma obtener_usos_orden_indiferente_testigo :
  (Forall2 (fun linea uso => convertir int_decimal linea = Ok uso)
     (tail ["cabecera"; "10;x;5;y;5"; "20;x;1;y;1"]%string)
     [mkUsoBizi 10 5 5; mkUsoBizi 20 1 1]
   /\ Forall2 (fun linea uso => convertir int_decimal linea = Ok uso)
        (tail ["otra"; "20;x;1;y;1"; "10;x;5;y;5"]%string)
        [mkUsoBizi 20 1 1; mkUsoBizi 10 5 5]
   /\ [mkUsoBizi 10 5 5; mkUsoBizi 20 1 1]
        ≡ₚ [mkUsoBizi 20 1 1; mkUsoBizi 10 5 5])
  /\ exists usuarios,
       obtener_usos_por_usuario_from_file int_decimal
         ["cabecera"; "10;x;5;y;5"; "20;x;1;y;1"]%string = Ok usuarios
       /\ obtener_usos_por_usuario_from_file int_decimal
            ["otra"; "20;x;1;y;1"; "10;x;5;y;5"]%string = Ok usuarios.
Proof.
  assert (Hf : Forall2 (fun linea uso => convertir int_decimal linea = Ok uso)
     (tail ["cabecera"; "10;x;5;y;5"; "20;x;1;y;1"]%string)
     [mkUsoBizi 10 5 5; mkUsoBizi 20 1 1]) by (simpl; repeat constructor).
  assert (Hg : Forall2 (fun linea uso => convertir int_decimal linea = Ok uso)
        (tail ["otra"; "20;x;1;y;1"; "10;x;5;y;5"]%string)
        [mkUsoBizi 20 1 1; mkUsoBizi 10 5 5]) by (simpl; repeat constructor).
  assert (Hp : [mkUsoBizi 10 5 5; mkUsoBizi 20 1 1]
                 ≡ₚ [mkUsoBizi 20 1 1; mkUsoBizi 10 5 5]) by apply perm_swap.
  split; [by repeat split|].
  exact (obtener_usos_orden_indiferente int_decimal _ _ _ _ Hf Hg Hp).
Defined.

(** ** More on the selection *)

(** X7.  The selected prefix holds the users of most uses: no record left
    outside the first [min num_ordenar (len l)] slots has a larger total
    than a record inside them. *)
Theorem ordenar_mayores l k :
  exists l',
    ordenar l k = Ok l'
    /\ l' ≡ₚ l
    /\ forall i j ui uj,
         0 <= i < Z.min k (len l) -> Z.min k (len l) <= j < len l ->
         l' !! Z.to_nat i = Some ui -> l' !! Z.to_nat j = Some uj ->
         num_usos_totales uj <= num_usos_totales ui.
Proof.
  destruct (ordenar_total l k) as (l' & Hl' & Hfijo & Hperm).
  assert (Hlen : len l' = len l).
  { unfold len. by rewrite (Permutation_length Hperm). }
  exists l'. split; [done|]. split; [done|].
  intros i j ui uj Hi Hj Hui Huj.
  apply (Hfijo i j ui uj); [lia|lia|done|done].
Qed.

Lemma getitem_fuera {A} (l : list A) (i : Z) :
  len l <= i \/ i < - len l -> getitem l i = Raise IndexError.
Proof.
  intros Hi. unfold getitem. pose proof (len_nonneg l).
  destruct (Z.ltb_spec i 0).
  - destruct (Z.leb_spec 0 (i + len l)); [lia|done].
  - destruct (Z.ltb_spec i (len l)); [lia|]. by rewrite andb_false_r.
Qed.

(** X8.  The scan does not check its start index: from the length of the list
    on, and so for every index on an empty list, it raises [IndexError]
    instead of returning a position. *)
Theorem buscar_indice_del_mayor_fuera_de_rango l i :
  len l <= i \/ l = [] -> buscar_indice_del_mayor l i = Raise IndexError.
Proof.
  intros Hi. unfold buscar_indice_del_mayor.
  rewrite getitem_fuera; [done|].
  destruct Hi as [Hi| ->]; [by left|]. unfold len. simpl. lia.
Qed.

Lemma buscar_indice_del_mayor_fuera_de_rango_testigo :
  (len registro_ejemplo <= 3 \/ registro_ejemplo = [])
  /\ buscar_indice_del_mayor registro_ejemplo 3 = Raise IndexError.
Proof.
  assert (H : len registro_ejemplo <= 3 \/ registro_ejemplo = [])
    by (left; vm_compute; congruence).
  split; [exact H|].
  exact (buscar_indice_del_mayor_fuera_de_rango registro_ejemplo 3 H).
Defined.

(** When slot [a] already holds a total that nothing after it exceeds, the
    scan stays on it and the exchange leaves the list as it is. *)
Lemma ordenar_paso_fijo l a :
  0 <= a < len l ->
  (forall j ua uj, a <= j < len l ->
     l !! Z.to_nat a = Some ua -> l !! Z.to_nat j = Some uj ->
     num_usos_totales uj <= num_usos_totales ua) ->
  buscar_indice_del_mayor l a = Ok a /\ intercambiar l a a = Ok l.
Proof.
  intros Ha Hmax.
  destruct (getitem_en_rango l a Ha) as (ua & Hua & _).
  destruct (buscar_indice_del_mayor_primer_maximo l a Ha) as (j & Hj & Hprimer).
  assert (Haqui : primer_maximo l a (len l) a).
  { split; [lia|]. exists ua. split; [done|]. split.
    - intros k u Hk Hu. by apply (Hmax k ua u).
    - intros k u Hk. lia. }
  pose proof (primer_maximo_unico _ _ _ _ _ Hprimer Haqui) as ->.
  split; [done|].
  rewrite (intercambiar_en_rango l a a ua ua) by (done || lia).
  by rewrite !(list_insert_id l _ ua Hua).
Qed.

Lemma ordenar_para_fijo l (n : nat) : forall a,
  0 <= a -> a + Z.of_nat n <= len l -> prefijo_fijado l (a + Z.of_nat n) ->
  ordenar_para l (seqZ a (Z.of_nat n)) = Ok l.
Proof.
  induction n as [|n IH]; intros a Ha Hn Hfijo; [done|].
  rewrite seqZ_cons by lia. simpl.
  destruct (ordenar_paso_fijo l a) as [-> Hint]; [lia| |].
  { intros j ua uj Hj Hua Huj. apply (Hfijo a j ua uj); [lia|lia|done|done]. }
  simpl. rewrite Hint. simpl.
  replace (Z.pred (Z.of_nat (S n))) with (Z.of_nat n) by lia.
  apply IH; [lia|lia|].
  by replace (Z.succ a + Z.of_nat n) with (a + Z.of_nat (S n)) by lia.
Qed.

(** X9.  [ordenar] returns the list unchanged exactly when each of the
    first [min num_ordenar (len l)] slots already holds a total that no
    later slot exceeds.  A record in such a slot is not moved by a later
    record of the same total. *)
Theorem ordenar_sin_cambio l k :
  (forall i j ui uj,
     0 <= i < Z.min k (len l) -> i <= j < len l ->
     l !! Z.to_nat i = Some ui -> l !! Z.to_nat j = Some uj ->
     num_usos_totales uj <= num_usos_totales ui)
  <-> ordenar l k = Ok l.
Proof.
  pose proof (len_nonneg l). split.
  - intros Hfijo. rewrite ordenar_seqZ.
    apply ordenar_para_fijo; [lia|lia|].
    intros i j ui uj Hi Hj. apply Hfijo; lia.
  - intros Hord. destruct (ordenar_total l k) as (l' & Hl' & Hfijo & _).
    assert (l' = l) as -> by congruence.
    intros i j ui uj Hi Hj. apply Hfijo; lia.
Qed.

Lemma ordenar_sin_cambio_testigo :
  (forall i j ui uj,
     0 <= i < Z.min 2 (len registro_empatado) ->
     i <= j < len registro_empatado ->
     registro_empatado !! Z.to_nat i = Some ui ->
     registro_empatado !! Z.to_nat j = Some uj ->
     num_usos_totales uj <= num_usos_totales ui)
  /\ ordenar registro_empatado 2 = Ok registro_empatado.
Proof.
  assert (H : forall i j ui uj,
     0 <= i < Z.min 2 (len registro_empatado) ->
     i <= j < len registro_empatado ->
     registro_empatado !! Z.to_nat i = Some ui ->
     registro_empatado !! Z.to_nat j = Some uj ->
     num_usos_totales uj <= num_usos_totales ui).
  { intros i j ui uj Hi Hj. change (len registro_empatado) with 4 in *.
    assert (Hi' : i = 0 \/ i = 1) by lia.
    assert (Hj' : j = 0 \/ j = 1 \/ j = 2 \/ j = 3) by lia.
    destruct Hi' as [->| ->], Hj' as [->|[->|[->| ->]]]; simpl;
      intros [= <-] [= <-]; unfold num_usos_totales; simpl; lia. }
  split; [exact H|].
  exact (proj1 (ordenar_sin_cambio registro_empatado 2) H).
Defined.

(** X10.  [ordenar] is idempotent: applied to its own result with the same
    [num_ordenar] it changes nothing. *)
Theorem ordenar_idempotente l k :
  exists l', ordenar l k = Ok l' /\ ordenar l' k = Ok l'.
Proof.
  destruct (ordenar_total l k) as (l' & Hl' & Hfijo & Hperm).
  assert (Hlen : len l' = len l).
  { unfold len. by rewrite (Permutation_length Hperm). }
  pose proof (len_nonneg l) as Hn.
  exists l'. split; [done|]. rewrite ordenar_seqZ, Hlen.
  apply ordenar_para_fijo; [lia|lia|].
  intros i j ui uj Hi Hj. apply Hfijo; lia.
Qed.

(** X11.  Asking for more slots does not change the first ones: for
    [0 <= k <= k'] the first [k] records after [ordenar l k'] are those
    after [ordenar l k]. *)
Theorem ordenar_prefijo_estable l k k' :
  0 <= k <= k' ->
  exists l1 l2,
    ordenar l k = Ok l1 /\ ordenar l k' = Ok l2
    /\ take (Z.to_nat k) l1 = take (Z.to_nat k) l2.
Proof.
  intros Hk. pose proof (len_nonneg l) as Hn.
  destruct (ordenar_total l k) as (l1 & Hl1 & Hfijo1 & Hperm1).
  assert (Hlen1 : len l1 = len l).
  { unfold len. by rewrite (Permutation_length Hperm1). }
  exists l1. rewrite Hl1.
  destruct (Z.le_gt_cases (len l) k) as [Hgrande|Hpeq].
  { exists l1. split; [done|]. split; [|done].
    rewrite ordenar_seqZ in Hl1 |- *.
    by replace (Z.min k' (len l)) with (Z.min k (len l)) by lia. }
  set (m := Z.min k' (len l)).
  destruct (ordenar_para_seqZ (Z.to_nat (m - k)) k l1)
    as (l2 & Hl2 & _ & _ & Hantes);
    [lia|lia| |].
  { replace k with (Z.max 0 (Z.min k (len l))) by lia. done. }
  exists l2. split; [done|]. split.
  - rewrite ordenar_seqZ. fold m.
    replace (Z.of_nat (Z.to_nat m)) with (k + (m - k)) by lia.
    rewrite seqZ_app by lia. rewrite ordenar_para_app.
    rewrite ordenar_seqZ in Hl1.
    replace (Z.of_nat (Z.to_nat (Z.min k (len l)))) with k in Hl1 by lia.
    rewrite Hl1. simpl.
    by replace (Z.of_nat (Z.to_nat (m - k))) with (m - k) in Hl2 by lia.
  - apply list_eq. intros idx.
    destruct (decide (idx < Z.to_nat k)%nat) as [Hlt|Hge].
    + rewrite !lookup_take_lt by done. symmetry. by apply Hantes.
    + rewrite !lookup_take_ge by lia. done.
Qed.

Lemma ordenar_prefijo_estable_testigo :
  0 <= 1 <= 3
  /\ exists l1 l2,
       ordenar registro_ejemplo 1 = Ok l1 /\ ordenar registro_ejemplo 3 = Ok l2
       /\ take (Z.to_nat 1) l1 = take (Z.to_nat 1) l2.
Proof.
  assert (H : 0 <= 1 <= 3) by lia.
  split; [exact H|]. exact (ordenar_prefijo_estable registro_ejemplo 1 3 H).
Defined.


(** * [next_date] *)

Example ejemplo_next_date_28_feb_2024 :
  next_date int_con_signo "28-2-2024" = Devuelve "29-2-2024"%string.
Proof. by vm_compute. Qed.

Example ejemplo_next_date_29_feb_2025 :
  next_date int_con_signo "29-2-2025"
  = Lanza (ValueErrorMensaje "Day must be between 1 and 28.").
Proof. by vm_compute. Qed.

Example ejemplo_next_date_fin_de_anno :
  next_date int_con_signo "31/12.2024" = Devuelve "1-1-2025"%string.
Proof. by vm_compute. Qed.

Example ejemplo_next_date_1582 :
  next_date int_con_signo "1-7-1582"
  = Lanza (ValueErrorMensaje "Year must be greater than 1582.").
Proof. by vm_compute. Qed.

Example ejemplo_next_date_formato :
  next_date int_con_signo "1-7-2024-12-00-00"
  = Lanza (ValueErrorMensaje "Wrong format").
Proof. by vm_compute. Qed.

(** ** The limit of [str] *)

Lemma LIMITE_grande : 10000 <= LIMITE.
Proof.
  unfold LIMITE. change 10000 with (10 ^ 4). apply Z.pow_le_mono_r; lia.
Qed.

Lemma str_corto z : corto z -> str z = Some (numeral z).
Proof.
  unfold corto, str. intros H.
  by destruct (Z.ltb_spec (Z.abs z) LIMITE); [|lia].
Qed.

Lemma str_largo z : ~ corto z -> str z = None.
Proof.
  unfold corto, str. intros H.
  by destruct (Z.ltb_spec (Z.abs z) LIMITE).
Qed.

Lemma corto_pequeno z : -10000 < z < 10000 -> corto z.
Proof. unfold corto. pose proof LIMITE_grande. lia. Qed.

Lemma corto_entre a z : 0 <= z <= a -> a < LIMITE -> corto z.
Proof. unfold corto. lia. Qed.

(** ** The length of a month *)

(** The chain of tests on [y % 400], [y % 100] and [y % 4] is the Gregorian
    rule. *)
Lemma dias_del_mes_codigo y m :
  (if m =? 2 then
     if y `mod` 400 =? 0 then 29
     else if y `mod` 100 =? 0 then 28
     else if y `mod` 4 =? 0 then 29
     else 28
   else if (m =? 4) || (m =? 6) || (m =? 9) || (m =? 11) then 30
   else 31) = dias_del_mes y m.
Proof.
  unfold dias_del_mes, bisiesto.
  destruct (m =? 2); [|done].
  destruct (Z.eqb_spec (y `mod` 400) 0) as [H400|H400].
  - by rewrite orb_true_r.
  - rewrite orb_false_r.
    destruct (y `mod` 100 =? 0); [by rewrite andb_false_r|].
    rewrite andb_true_r. by destruct (y `mod` 4 =? 0).
Qed.

Lemma dias_del_mes_cotas y m : 28 <= dias_del_mes y m <= 31.
Proof.
  unfold dias_del_mes. destruct (m =? 2); [destruct (bisiesto y); lia|].
  destruct ((m =? 4) || (m =? 6) || (m =? 9) || (m =? 11)); lia.
Qed.

Lemma length_split_positiva sep s : (0 < length (split sep s))%nat.
Proof.
  induction s as [|c s IH]; simpl; [lia|].
  destruct (Ascii.eqb c sep); simpl; [lia|].
  destruct (split sep s); simpl in *; lia.
Qed.

Lemma length_split_cons sep c s :
  length (split sep (String c s))
  = ((if Ascii.eqb c sep then 1 else 0) + length (split sep s))%nat.
Proof.
  pose proof (length_split_positiva sep s) as Hpos. simpl.
  destruct (Ascii.eqb c sep); [done|].
  destruct (split sep s); simpl in *; lia.
Qed.

(** The number of tokens is one more than the number of separators. *)
Lemma length_tokens dt : length (tokens dt) = S (separadores dt).
Proof.
  unfold tokens. induction dt as [|c dt IH]; [done|].
  cbn [replace separadores]. rewrite length_split_cons, IH.
  unfold es_separador.
  destruct (Ascii.eqb_spec c "/") as [->|Hbarra]; [done|].
  destruct (Ascii.eqb_spec c ".") as [->|Hpunto]; [done|].
  by destruct (Ascii.eqb_spec c "-").
Qed.

Section FechaPropiedades.

Variable int : string -> option Z.

(** [next_date] once its three tokens are known. *)
Lemma next_date_tokens dt t0 t1 t2 :
  tokens dt = [t0; t1; t2] ->
  next_date int dt =
    match int t2 with
    | None => Lanza (ValueErrorInt t2)
    | Some y =>
        if y <=? 1582 then
          Lanza (ValueErrorMensaje "Year must be greater than 1582.")
        else
          match int t1 with
          | None => Lanza (ValueErrorInt t1)
          | Some m =>
              if (m <? 1) || (m >? 12) then
                Lanza (ValueErrorMensaje "Month must be between 1 and 12.")
              else
                match int t0 with
                | None => Lanza (ValueErrorInt t0)
                | Some d =>
                    if (d <? 1) || (d >? dias_del_mes y m) then
                      Lanza (ValueErrorMensaje
                               ("Day must be between 1 and "
                                  ++ numeral (dias_del_mes y m) ++ "."))
                    else
                      let '(d', m', y') := siguiente d m y in
                      if y' <? LIMITE then Devuelve (escribe d' m' y')
                      else Lanza ValueErrorStr
                end
          end
    end.
Proof.
  intros Htok. unfold next_date.
  change (split "-" (replace "." "-" (replace "/" "-" dt))) with (tokens dt).
  rewrite Htok.
  destruct (int t2) as [y|]; [|done].
  destruct (Z.leb_spec y 1582) as [|Hy]; [done|].
  destruct (int t1) as [m|]; [|done].
  destruct (Z.ltb_spec m 1) as [|Hm1]; [done|].
  destruct (Z.gtb_spec m 12) as [|Hm12]; [done|]. cbn [orb].
  rewrite dias_del_mes_codigo. pose proof (dias_del_mes_cotas y m) as Hdias.
  destruct (int t0) as [d|]; [|done].
  assert (Hstr : forall z, -10000 < z < 10000 -> str z = Some (numeral z))
    by (intros z Hz; apply str_corto, corto_pequeno, Hz).
  assert (Hanno : forall z, 1582 < z ->
            str z = if z <? LIMITE then Some (numeral z) else None).
  { intros z Hz. unfold str. by rewrite Z.abs_eq by lia. }
  destruct (Z.ltb_spec d 1) as [|Hd1]; [cbn [orb]; by rewrite Hstr by lia|].
  destruct (Z.gtb_spec d (dias_del_mes y m)) as [|Hd2];
    [cbn [orb]; by rewrite Hstr by lia|]. cbn [orb].
  unfold siguiente.
  destruct (Z.gtb_spec (d + 1) (dias_del_mes y m)),
           (Z.ltb_spec d (dias_del_mes y m)); try lia.
  - destruct (Z.gtb_spec (m + 1) 12), (Z.ltb_spec m 12); try lia.
    + rewrite !(Hstr 1) by lia. rewrite Hanno by lia.
      by destruct (y + 1 <? LIMITE).
    + rewrite (Hstr 1), (Hstr (m + 1)) by lia. rewrite Hanno by lia.
      by destruct (y <? LIMITE).
  - rewrite (Hstr (d + 1)), (Hstr m) by lia. rewrite Hanno by lia.
    by destruct (y <? LIMITE).
Qed.

(** On a valid date. *)
Lemma next_date_en_valida dt t0 t1 t2 d m y d' m' y' :
  tokens dt = [t0; t1; t2] ->
  int t0 = Some d -> int t1 = Some m -> int t2 = Some y ->
  1582 < y -> 1 <= m <= 12 -> 1 <= d <= dias_del_mes y m ->
  siguiente d m y = (d', m', y') ->
  next_date int dt =
    if y' <? LIMITE then Devuelve (escribe d' m' y') else Lanza ValueErrorStr.
Proof.
  intros Htok H0 H1 H2 Hy Hm Hd Hsig.
  rewrite (next_date_tokens dt t0 t1 t2 Htok), H2, H1, H0, Hsig.
  destruct (Z.leb_spec y 1582); [lia|].
  destruct (Z.ltb_spec m 1); [lia|]. destruct (Z.gtb_spec m 12); [lia|].
  cbn [orb].
  destruct (Z.ltb_spec d 1); [lia|].
  by destruct (Z.gtb_spec d (dias_del_mes y m)); [lia|].
Qed.

(** What a returned value tells about the text. *)
Lemma next_date_devuelve dt s :
  next_date int dt = Devuelve s ->
  exists t0 t1 t2 d m y,
    tokens dt = [t0; t1; t2]
    /\ int t0 = Some d /\ int t1 = Some m /\ int t2 = Some y
    /\ 1582 < y /\ 1 <= m <= 12 /\ 1 <= d <= dias_del_mes y m.
Proof.
  intros H.
  destruct (tokens dt) as [|t0 [|t1 [|t2 [|t3 resto]]]] eqn:Htok;
    try (unfold next_date in H;
         change (split "-" (replace "." "-" (replace "/" "-" dt)))
           with (tokens dt) in H;
         rewrite Htok in H; discriminate).
  rewrite (next_date_tokens dt t0 t1 t2 Htok) in H.
  destruct (int t2) as [y|] eqn:Hi2; [|done].
  destruct (Z.leb_spec y 1582); [done|].
  destruct (int t1) as [m|] eqn:Hi1; [|done].
  destruct (Z.ltb_spec m 1); [done|]. destruct (Z.gtb_spec m 12); [done|].
  cbn [orb] in H.
  destruct (int t0) as [d|] eqn:Hi0; [|done].
  destruct (Z.ltb_spec d 1); [done|].
  destruct (Z.gtb_spec d (dias_del_mes y m)); [done|].
  exists t0, t1, t2, d, m, y. repeat split; (done || lia).
Qed.

(** The day after a valid date is a valid date that comes next in the
    calendar. *)
Lemma siguiente_inmediato d m y d' m' y' :
  1582 < y -> 1 <= m <= 12 -> 1 <= d <= dias_del_mes y m ->
  siguiente d m y = (d', m', y') ->
  fecha_valida d' m' y'
  /\ anterior (d, m, y) (d', m', y')
  /\ forall d2 m2 y2,
       fecha_valida d2 m2 y2 ->
       ~ (anterior (d, m, y) (d2, m2, y2) /\ anterior (d2, m2, y2) (d', m', y')).
Proof.
  intros Hy Hm Hd. unfold siguiente.
  destruct (Z.ltb_spec d (dias_del_mes y m)) as [Hdentro|Hfin];
    [|destruct (Z.ltb_spec m 12) as [Hmes|Hdic]];
    intros [= <- <- <-]; unfold fecha_valida, anterior.
  - split; [lia|]. split; [lia|].
    intros d2 m2 y2 _ [Ha Hb]. lia.
  - pose proof (dias_del_mes_cotas y (m + 1)).
    split; [lia|]. split; [lia|].
    intros d2 m2 y2 (Hy2 & Hm2 & Hd2) [Ha Hb].
    assert (y2 = y) as -> by lia.
    assert (m2 = m \/ m2 = m + 1) as [-> | ->] by lia; lia.
  - pose proof (dias_del_mes_cotas (y + 1) 1).
    split; [lia|]. split; [lia|].
    intros d2 m2 y2 (Hy2 & Hm2 & Hd2) [Ha Hb].
    assert (y2 = y \/ y2 = y + 1) as [-> | ->] by lia.
    + assert (m2 = m) as -> by lia. lia.
    + lia.
Qed.

(** X13.  On a valid date [next_date] computes the next day: the day goes
    up by one inside the month, the month ends on its last day (28, 29, 30
    or 31 by month and Gregorian leap year), and the year ends on 31
    December.  It returns that day written as day-month-year, unless its
    year is beyond what [str] converts, in which case the [ValueError] of
    [str] comes out. *)
Theorem next_date_valida dt t0 t1 t2 d m y d' m' y' :
  tokens dt = [t0; t1; t2] ->
  int t0 = Some d -> int t1 = Some m -> int t2 = Some y ->
  fecha_valida d m y ->
  (d', m', y') =
    (if d <? dias_del_mes y m then (d + 1, m, y)
     else if m <? 12 then (1, m + 1, y)
     else (1, 1, y + 1)) ->
  next_date int dt =
    if y' <? LIMITE then Devuelve (escribe d' m' y') else Lanza ValueErrorStr.
Proof.
  intros Htok H0 H1 H2 (Hy & Hm & Hd) Hsig.
  apply (next_date_en_valida dt t0 t1 t2 d m y); [done..|].
  unfold siguiente. by rewrite Hsig.
Qed.

(** X14.  [next_date] returns only on valid dates: whenever it returns, the text
    had exactly three tokens, all three were integers, and they formed a
    date with a year after 1582, a month from 1 to 12 and a day of that
    month. *)
Theorem next_date_solo_validas dt s :
  next_date int dt = Devuelve s ->
  exists t0 t1 t2 d m y,
    tokens dt = [t0; t1; t2]
    /\ int t0 = Some d /\ int t1 = Some m /\ int t2 = Some y
    /\ fecha_valida d m y.
Proof.
  intros H.
  destruct (next_date_devuelve dt s H)
    as (t0 & t1 & t2 & d & m & y & Htok & H0 & H1 & H2 & Hy & Hm & Hd).
  exists t0, t1, t2, d, m, y. do 4 (split; [done|]).
  unfold fecha_valida. lia.
Qed.

(** X15.  A date must hold exactly two separators, each of them [-], [/] or [.]:
    any other number of them is rejected as ["Wrong format"] before
    anything is converted.  In particular a minus sign cannot be used to
    write a negative number. *)
Theorem next_date_formato dt :
  separadores dt <> 2%nat ->
  next_date int dt = Lanza (ValueErrorMensaje "Wrong format").
Proof.
  intros Hsep. rewrite <- (Nat.succ_inj_wd_neg (separadores dt) 2) in Hsep.
  rewrite <- length_tokens in Hsep. unfold next_date.
  change (split "-" (replace "." "-" (replace "/" "-" dt))) with (tokens dt).
  by destruct (tokens dt) as [|t0 [|t1 [|t2 [|t3 resto]]]].
Qed.

(** X16.  The year is checked first: with a year up to 1582 the year message is
    raised whatever the other two tokens are, integers or not. *)
Theorem next_date_anno dt t0 t1 t2 y :
  tokens dt = [t0; t1; t2] -> int t2 = Some y -> y <= 1582 ->
  next_date int dt
  = Lanza (ValueErrorMensaje "Year must be greater than 1582.").
Proof.
  intros Htok H2 Hy. rewrite (next_date_tokens dt t0 t1 t2 Htok), H2.
  by destruct (Z.leb_spec y 1582); [|lia].
Qed.

(** X17.  With a good year, a month outside 1..12 raises the month message
    whatever the day token is. *)
Theorem next_date_mes dt t0 t1 t2 m y :
  tokens dt = [t0; t1; t2] -> int t2 = Some y -> 1582 < y ->
  int t1 = Some m -> m < 1 \/ 12 < m ->
  next_date int dt
  = Lanza (ValueErrorMensaje "Month must be between 1 and 12.").
Proof.
  intros Htok H2 Hy H1 Hm. rewrite (next_date_tokens dt t0 t1 t2 Htok), H2, H1.
  destruct (Z.leb_spec y 1582); [lia|].
  destruct (Z.ltb_spec m 1); [done|]. destruct (Z.gtb_spec m 12); [done|lia].
Qed.

(** X18.  With a good year and month, a day outside the month raises a message
    that names the length of that month in that year. *)
Theorem next_date_dia dt t0 t1 t2 d m y :
  tokens dt = [t0; t1; t2] -> int t2 = Some y -> 1582 < y ->
  int t1 = Some m -> 1 <= m <= 12 ->
  int t0 = Some d -> d < 1 \/ dias_del_mes y m < d ->
  next_date int dt
  = Lanza (ValueErrorMensaje
             ("Day must be between 1 and " ++ numeral (dias_del_mes y m) ++ ".")).
Proof.
  intros Htok H2 Hy H1 Hm H0 Hd.
  rewrite (next_date_tokens dt t0 t1 t2 Htok), H2, H1, H0.
  destruct (Z.leb_spec y 1582); [lia|].
  destruct (Z.ltb_spec m 1); [lia|]. destruct (Z.gtb_spec m 12); [lia|].
  cbn [orb].
  destruct (Z.ltb_spec d 1); [done|].
  destruct (Z.gtb_spec d (dias_del_mes y m)); [done|lia].
Qed.

(** X19.  The date [next_date] computes is the immediate successor in the
    calendar: it is a valid date, it comes after the one given, and no
    valid date lies strictly between the two.  That date is what is
    returned, written as day-month-year, as long as [str] converts its
    year; otherwise the [ValueError] of [str] comes out. *)
Theorem next_date_sucesor dt t0 t1 t2 d m y :
  tokens dt = [t0; t1; t2] ->
  int t0 = Some d -> int t1 = Some m -> int t2 = Some y ->
  fecha_valida d m y ->
  exists d' m' y',
    fecha_valida d' m' y'
    /\ anterior (d, m, y) (d', m', y')
    /\ (forall d2 m2 y2,
          fecha_valida d2 m2 y2 ->
          ~ (anterior (d, m, y) (d2, m2, y2)
             /\ anterior (d2, m2, y2) (d', m', y')))
    /\ next_date int dt =
         if y' <? LIMITE then Devuelve (escribe d' m' y')
         else Lanza ValueErrorStr.
Proof.
  intros Htok H0 H1 H2 (Hy & Hm & Hd).
  destruct (siguiente d m y) as [[d' m'] y'] eqn:Hsig.
  exists d', m', y'.
  destruct (siguiente_inmediato d m y d' m' y' Hy Hm Hd Hsig)
    as (Hval & Hant & Hentre).
  do 3 (split; [done|]).
  by apply (next_date_en_valida dt t0 t1 t2 d m y).
Qed.

End FechaPropiedades.

(** ** Texts without a given character *)

Lemma contiene_app c a b :
  contiene c (a ++ b)%string = contiene c a || contiene c b.
Proof.
  induction a as [|x a IH]; simpl; [done|]. by rewrite IH, orb_assoc.
Qed.

Lemma split_sin sep a : contiene sep a = false -> split sep a = [a].
Proof.
  induction a as [|x a IH]; simpl; [done|].
  intros [Hx Ha]%orb_false_elim. rewrite Hx. by rewrite (IH Ha).
Qed.

Lemma split_app sep a b :
  contiene sep a = false ->
  split sep (a ++ String sep b)%string = a :: split sep b.
Proof.
  induction a as [|x a IH]; simpl.
  - intros _. by rewrite Ascii.eqb_refl.
  - intros [Hx Ha]%orb_false_elim. rewrite Hx. by rewrite (IH Ha).
Qed.

Lemma replace_sin viejo nuevo s :
  contiene viejo s = false -> replace viejo nuevo s = s.
Proof.
  induction s as [|x s IH]; simpl; [done|].
  intros [Hx Hs]%orb_false_elim. rewrite Hx. by rewrite (IH Hs).
Qed.

Lemma contiene_digitos c u :
  digito c = None -> contiene c (NilEmpty.string_of_uint u) = false.
Proof.
  intros Hc. induction u as [|u IH|u IH|u IH|u IH|u IH|u IH|u IH|u IH|u IH|u IH];
    cbn [NilEmpty.string_of_uint contiene]; [done|..];
    (match goal with
     | |- context [Ascii.eqb ?a c] =>
         destruct (Ascii.eqb_spec a c) as [<-|_]; [by vm_compute in Hc|]
     end); exact IH.
Qed.

Lemma contiene_numeral c u :
  digito c = None -> contiene c (NilZero.string_of_uint u) = false.
Proof.
  intros Hc. destruct u; try (by apply (contiene_digitos c)).
  cbn [NilZero.string_of_uint contiene].
  destruct (Ascii.eqb_spec "0" c) as [<-|_]; [by vm_compute in Hc|done].
Qed.

(** The numeral of an integer holds digits, and a minus sign in front when
    it is negative, nothing else. *)
Lemma contiene_numeral_de c z :
  digito c = None -> c <> "-"%char -> contiene c (numeral z) = false.
Proof.
  intros Hc Hmenos. unfold numeral.
  destruct z as [|p|p];
    cbn [Z.to_int NilZero.string_of_int contiene]; try by apply contiene_numeral.
  destruct (Ascii.eqb_spec "-" c) as [<-|_]; [done|]. by apply contiene_numeral.
Qed.

Lemma contiene_numeral_no_negativo c z :
  digito c = None -> 0 <= z -> contiene c (numeral z) = false.
Proof.
  intros Hc Hz. unfold numeral.
  destruct z as [|p|p]; [| |lia];
    cbn [Z.to_int NilZero.string_of_int]; by apply contiene_numeral.
Qed.

Lemma int_con_signo_numeral z : int_con_signo (numeral z) = Some z.
Proof.
  unfold int_con_signo, numeral. rewrite NilZero.isi.
  - simpl. by rewrite DecimalZ.of_to.
  - destruct z; try discriminate.
    intros [= H]. by apply Unsigned.to_uint_nonnil in H.
  - destruct z; try discriminate.
    intros [= H]. by apply Unsigned.to_uint_nonnil in H.
Qed.

(** What [next_date] writes for a date without negative parts reads back
    as the same three numerals. *)
Lemma tokens_escribe d m y :
  0 <= d -> 0 <= m -> 0 <= y ->
  tokens (escribe d m y) = [numeral d; numeral m; numeral y].
Proof.
  intros Hd Hm Hy. unfold tokens, escribe.
  assert (Hsin : forall c, digito c = None -> c <> "-"%char ->
            contiene c (numeral d ++ "-" ++ numeral m ++ "-" ++ numeral y)%string
            = false).
  { intros c Hc Hmenos. rewrite !contiene_app. cbn [contiene].
    rewrite !contiene_numeral_no_negativo by done.
    by destruct (Ascii.eqb_spec "-" c). }
  rewrite (replace_sin "/") by (by apply Hsin).
  rewrite (replace_sin ".") by (by apply Hsin).
  change (numeral d ++ "-" ++ numeral m ++ "-" ++ numeral y)%string
    with (numeral d ++ String "-" (numeral m ++ String "-" (numeral y)))%string.
  rewrite split_app by (by apply contiene_numeral_no_negativo).
  rewrite split_app by (by apply contiene_numeral_no_negativo).
  by rewrite split_sin by (by apply contiene_numeral_no_negativo).
Qed.

(** X20.  [next_date] reads what it writes: a returned text is the writing
    of a valid date whose year [str] converts, and on that text [next_date]
    computes the day after it, returning it unless the year of that day is
    beyond what [str] converts.  So dates can be advanced day after day up
    to the last day of the last year that can be written. *)
Theorem next_date_encadena int dt s :
  (forall z, 0 <= z -> corto z -> int (numeral z) = Some z) ->
  next_date int dt = Devuelve s ->
  exists d m y d' m' y',
    s = escribe d m y /\ fecha_valida d m y /\ y < LIMITE
    /\ siguiente d m y = (d', m', y')
    /\ next_date int s =
         if y' <? LIMITE then Devuelve (escribe d' m' y')
         else Lanza ValueErrorStr.
Proof.
  intros Hint Hs.
  destruct (next_date_devuelve int dt s Hs)
    as (t0 & t1 & t2 & d0 & m0 & y0 & Htok & H0 & H1 & H2 & Hy0 & Hm0 & Hd0).
  destruct (siguiente d0 m0 y0) as [[d m] y] eqn:Hsig0.
  rewrite (next_date_en_valida int dt t0 t1 t2 d0 m0 y0 d m y) in Hs by done.
  destruct (Z.ltb_spec y LIMITE) as [Hcorto|]; [|done]. injection Hs as <-.
  destruct (siguiente_inmediato d0 m0 y0 d m y Hy0 Hm0 Hd0 Hsig0)
    as ((Hy & Hm & Hd) & _).
  destruct (siguiente d m y) as [[d' m'] y'] eqn:Hsig.
  exists d, m, y, d', m', y'.
  split; [done|]. split; [done|]. split; [done|]. split; [done|].
  pose proof (dias_del_mes_cotas y m).
  apply (next_date_en_valida int _ (numeral d) (numeral m) (numeral y) d m y);
    try done.
  - apply tokens_escribe; lia.
  - apply Hint; [lia|apply corto_pequeno; lia].
  - apply Hint; [lia|apply corto_pequeno; lia].
  - apply Hint; [lia|unfold corto; lia].
Qed.

Lemma next_date_encadena_testigo :
  ((forall z, 0 <= z -> corto z -> int_con_signo (numeral z) = Some z)
   /\ next_date int_con_signo "30-12-2024" = Devuelve "31-12-2024"%string)
  /\ exists d m y d' m' y',
       "31-12-2024"%string = escribe d m y /\ fecha_valida d m y /\ y < LIMITE
       /\ siguiente d m y = (d', m', y')
       /\ next_date int_con_signo "31-12-2024" =
            if y' <? LIMITE then Devuelve (escribe d' m' y')
            else Lanza ValueErrorStr.
Proof.
  assert (Hint : forall z, 0 <= z -> corto z -> int_con_signo (numeral z) = Some z)
    by (intros z _ _; apply int_con_signo_numeral).
  assert (Hs : next_date int_con_signo "30-12-2024" = Devuelve "31-12-2024"%string)
    by (by vm_compute).
  split; [exact (conj Hint Hs)|].
  exact (next_date_encadena int_con_signo "30-12-2024" "31-12-2024" Hint Hs).
Defined.

(** X12.  A line whose fields 0, 2 and 4 are numerals that [int] reads as
    the integers they write is converted to the event of those three
    integers, whatever fields 1 and 3 hold. *)
Theorem convertir_numerales int a b c c1 c3 :
  int (numeral a) = Some a -> int (numeral b) = Some b ->
  int (numeral c) = Some c ->
  contiene ";" c1 = false -> contiene ";" c3 = false ->
  convertir int
    (numeral a ++ ";" ++ c1 ++ ";" ++ numeral b ++ ";" ++ c3 ++ ";"
       ++ numeral c)%string
  = Ok (mkUsoBizi a b c).
Proof.
  intros Ha Hb Hc H1 H3. rewrite convertir_campos. unfold campo, DELIMITADOR.
  change (numeral a ++ ";" ++ c1 ++ ";" ++ numeral b ++ ";" ++ c3 ++ ";"
            ++ numeral c)%string
    with (numeral a ++ String ";" (c1 ++ String ";" (numeral b ++ String ";"
            (c3 ++ String ";" (numeral c)))))%string.
  assert (Hs : forall z, contiene ";" (numeral z) = false)
    by (intros z; by apply contiene_numeral_de).
  rewrite split_app by done. rewrite split_app by done.
  rewrite split_app by done. rewrite split_app by done.
  rewrite split_sin by done. simpl. by rewrite Ha, Hb, Hc.
Qed.

Lemma convertir_numerales_testigo :
  (int_con_signo (numeral 53535) = Some 53535
   /\ int_con_signo (numeral 7) = Some 7
   /\ int_con_signo (numeral 12) = Some 12
   /\ contiene ";" "2024-07-01 10:00" = false
   /\ contiene ";" "2024-07-01 10:20" = false)
  /\ convertir int_con_signo
       (numeral 53535 ++ ";" ++ "2024-07-01 10:00" ++ ";" ++ numeral 7 ++ ";"
          ++ "2024-07-01 10:20" ++ ";" ++ numeral 12)%string
     = Ok (mkUsoBizi 53535 7 12).
Proof.
  split; [by repeat split|].
  exact (convertir_numerales int_con_signo 53535 7 12
           "2024-07-01 10:00" "2024-07-01 10:20"
           eq_refl eq_refl eq_refl eq_refl eq_refl).
Defined.

(** ** [next_date] on concrete dates *)

Lemma fecha_valida_28_2_2024 : fecha_valida 28 2 2024.
Proof. unfold fecha_valida. vm_compute. repeat split; congruence. Defined.

Lemma next_date_valida_testigo :
  (tokens "28/2.2024" = ["28"; "2"; "2024"]%string
   /\ int_con_signo "28" = Some 28 /\ int_con_signo "2" = Some 2
   /\ int_con_signo "2024" = Some 2024 /\ fecha_valida 28 2 2024
   /\ (29, 2, 2024) =
        (if 28 <? dias_del_mes 2024 2 then (28 + 1, 2, 2024)
         else if 2 <? 12 then (1, 2 + 1, 2024)
         else (1, 1, 2024 + 1)))
  /\ next_date int_con_signo "28/2.2024" =
       if 2024 <? LIMITE then Devuelve (escribe 29 2 2024)
       else Lanza ValueErrorStr.
Proof.
  split; [by repeat split; try exact fecha_valida_28_2_2024|].
  exact (next_date_valida int_con_signo "28/2.2024" "28" "2" "2024" 28 2 2024
           29 2 2024
           eq_refl eq_refl eq_refl eq_refl fecha_valida_28_2_2024 eq_refl).
Defined.

Lemma next_date_solo_validas_testigo :
  next_date int_con_signo "30-9-2024" = Devuelve "1-10-2024"%string
  /\ exists t0 t1 t2 d m y,
       tokens "30-9-2024" = [t0; t1; t2]
       /\ int_con_signo t0 = Some d /\ int_con_signo t1 = Some m
       /\ int_con_signo t2 = Some y /\ fecha_valida d m y.
Proof.
  assert (H : next_date int_con_signo "30-9-2024" = Devuelve "1-10-2024"%string)
    by (by vm_compute).
  split; [exact H|].
  exact (next_date_solo_validas int_con_signo "30-9-2024" "1-10-2024" H).
Defined.

Lemma next_date_formato_testigo :
  separadores "-1-7-2024" <> 2%nat
  /\ next_date int_con_signo "-1-7-2024"
     = Lanza (ValueErrorMensaje "Wrong format").
Proof.
  assert (H : separadores "-1-7-2024" <> 2%nat) by (vm_compute; congruence).
  split; [exact H|]. exact (next_date_formato int_con_signo "-1-7-2024" H).
Defined.

Lemma next_date_anno_testigo :
  (tokens "x-y-1582" = ["x"; "y"; "1582"]%string
   /\ int_con_signo "1582" = Some 1582 /\ 1582 <= 1582)
  /\ next_date int_con_signo "x-y-1582"
     = Lanza (ValueErrorMensaje "Year must be greater than 1582.").
Proof.
  assert (H : 1582 <= 1582) by lia.
  split; [by repeat split|].
  exact (next_date_anno int_con_signo "x-y-1582" "x" "y" "1582" 1582
           eq_refl eq_refl H).
Defined.

Lemma next_date_mes_testigo :
  (tokens "x-13-2024" = ["x"; "13"; "2024"]%string
   /\ int_con_signo "2024" = Some 2024 /\ 1582 < 2024
   /\ int_con_signo "13" = Some 13 /\ (13 < 1 \/ 12 < 13))
  /\ next_date int_con_signo "x-13-2024"
     = Lanza (ValueErrorMensaje "Month must be between 1 and 12.").
Proof.
  assert (Hy : 1582 < 2024) by lia.
  assert (Hm : 13 < 1 \/ 12 < 13) by lia.
  split; [by repeat split|].
  exact (next_date_mes int_con_signo "x-13-2024" "x" "13" "2024" 13 2024
           eq_refl eq_refl Hy eq_refl Hm).
Defined.

Lemma next_date_dia_testigo :
  (tokens "29-2-1900" = ["29"; "2"; "1900"]%string
   /\ int_con_signo "1900" = Some 1900 /\ 1582 < 1900
   /\ int_con_signo "2" = Some 2 /\ 1 <= 2 <= 12
   /\ int_con_signo "29" = Some 29 /\ (29 < 1 \/ dias_del_mes 1900 2 < 29))
  /\ next_date int_con_signo "29-2-1900"
     = Lanza (ValueErrorMensaje
                ("Day must be between 1 and "
                   ++ numeral (dias_del_mes 1900 2) ++ ".")).
Proof.
  assert (Hy : 1582 < 1900) by lia.
  assert (Hm : 1 <= 2 <= 12) by lia.
  assert (Hd : 29 < 1 \/ dias_del_mes 1900 2 < 29) by (right; reflexivity).
  split; [by repeat split|].
  exact (next_date_dia int_con_signo "29-2-1900" "29" "2" "1900" 29 2 1900
           eq_refl eq_refl Hy eq_refl Hm eq_refl Hd).
Defined.

Lemma next_date_sucesor_testigo :
  (tokens "28/2.2024" = ["28"; "2"; "2024"]%string
   /\ int_con_signo "28" = Some 28 /\ int_con_signo "2" = Some 2
   /\ int_con_signo "2024" = Some 2024 /\ fecha_valida 28 2 2024)
  /\ exists d' m' y',
       fecha_valida d' m' y'
       /\ anterior (28, 2, 2024) (d', m', y')
       /\ (forall d2 m2 y2,
             fecha_valida d2 m2 y2 ->
             ~ (anterior (28, 2, 2024) (d2, m2, y2)
                /\ anterior (d2, m2, y2) (d', m', y')))
       /\ next_date int_con_signo "28/2.2024" =
            if y' <? LIMITE then Devuelve (escribe d' m' y')
            else Lanza ValueErrorStr.
Proof.
  split; [by repeat split; try exact fecha_valida_28_2_2024|].
  exact (next_date_sucesor int_con_signo "28/2.2024" "28" "2" "2024" 28 2 2024
           eq_refl eq_refl eq_refl eq_refl fecha_valida_28_2_2024).
Defined.

(** The last day that can be advanced: from 31 December of the last year
    [str] converts, the next year cannot be written. *)
Example ejemplo_next_date_limite :
  next_date int_con_signo (escribe 31 12 (LIMITE - 1)) = Lanza ValueErrorStr.
Proof.
  pose proof LIMITE_grande as HL.
  rewrite (next_date_en_valida int_con_signo (escribe 31 12 (LIMITE - 1))
             (numeral 31) (numeral 12) (numeral (LIMITE - 1))
             31 12 (LIMITE - 1) 1 1 (LIMITE - 1 + 1)).
  - by destruct (Z.ltb_spec (LIMITE - 1 + 1) LIMITE); [lia|].
  - apply tokens_escribe; lia.
  - apply int_con_signo_numeral.
  - apply int_con_signo_numeral.
  - apply int_con_signo_numeral.
  - lia.
  - lia.
  - by change (dias_del_mes (LIMITE - 1) 12) with 31.
  - unfold siguiente. by change (dias_del_mes (LIMITE - 1) 12) with 31.
Qed.

(** * Showing the result *)

Lemma string_length_append a b :
  String.length (a ++ b)%string = (String.length a + String.length b)%nat.
Proof. induction a as [|c a IH]; simpl; [done|]. by rewrite IH. Qed.

Lemma string_app_assoc a b c : ((a ++ b) ++ c = a ++ (b ++ c))%string.
Proof. induction a as [|x a IH]; simpl; [done|]. by rewrite IH. Qed.

Lemma length_espacios n : String.length (espacios n) = n.
Proof. induction n as [|n IH]; simpl; [done|]. by rewrite IH. Qed.

Lemma length_alinear ancho s :
  String.length (alinear ancho s) = Nat.max (Z.to_nat ancho) (String.length s).
Proof.
  unfold alinear. rewrite string_length_append, length_espacios. lia.
Qed.

Lemma alinear_columna z : alinear ANCHO (numeral z) = columna z.
Proof.
  unfold alinear, columna, ANCHO. do 2 f_equal. lia.
Qed.

Lemma length_columna z :
  String.length (columna z) = Nat.max 10 (String.length (numeral z)).
Proof. by rewrite <- alinear_columna, length_alinear. Qed.

Lemma str_Some z s : str z = Some s -> corto z /\ s = numeral z.
Proof.
  unfold str, corto.
  destruct (Z.ltb_spec (Z.abs z) LIMITE); [|done]. by intros [= <-].
Qed.

Lemma formatear_corto z : corto z -> formatear ANCHO z = Some (columna z).
Proof.
  intros H. unfold formatear. rewrite (str_corto z H). cbn [option_map].
  by rewrite alinear_columna.
Qed.

Lemma formatear_Some z s : formatear ANCHO z = Some s -> corto z.
Proof.
  unfold formatear. destruct (str z) as [t|] eqn:Ht; [|done].
  intros _. by apply str_Some in Ht as [? _].
Qed.

(** A record whose four integers [str] converts is written as its row. *)
Lemma mostrar_usuario_corto u :
  usuario_corto u -> mostrar_usuario u = ([fila u], None).
Proof.
  intros (H1 & H2 & H3 & H4). unfold mostrar_usuario.
  rewrite !formatear_corto by done. unfold fila.
  by rewrite string_app_assoc.
Qed.

(** Any other record ends the call with [ValueError] and nothing written. *)
Lemma mostrar_usuario_largo u :
  ~ usuario_corto u -> mostrar_usuario u = ([], Some ValueError).
Proof.
  intros H. unfold mostrar_usuario.
  destruct (formatear ANCHO (id u)) as [c1|] eqn:H1; [|done].
  destruct (formatear ANCHO (num_usos_traslado u)) as [c2|] eqn:H2; [|done].
  destruct (formatear ANCHO (num_usos_circular u)) as [c3|] eqn:H3; [|done].
  destruct (formatear ANCHO (num_usos_totales u)) as [c4|] eqn:H4; [|done].
  destruct H. unfold usuario_corto.
  split; [|split; [|split]]; eapply formatear_Some; eassumption.
Qed.

(** X21.  A record whose four integers [str] converts is written as one
    line of four columns, in the order identifier, transit uses, circular
    uses, total.  Each column is the decimal numeral of its integer pushed
    to the right by blanks up to ten characters; a numeral of more than ten
    characters is written whole and widens its column.  So the line is
    never narrower than the two 40-character heading lines, and exactly as
    wide when the four numerals have at most ten characters. *)
Theorem mostrar_usuario_ancho u :
  usuario_corto u ->
  exists linea,
    mostrar_usuario u = ([linea], None)
    /\ linea =
         (espacios (10 - String.length (numeral (id u)))
            ++ numeral (id u)
            ++ espacios (10 - String.length (numeral (num_usos_traslado u)))
            ++ numeral (num_usos_traslado u)
            ++ espacios (10 - String.length (numeral (num_usos_circular u)))
            ++ numeral (num_usos_circular u)
            ++ espacios (10 - String.length (numeral (num_usos_totales u)))
            ++ numeral (num_usos_totales u))%string
    /\ String.length linea =
         (Nat.max 10 (String.length (numeral (id u)))
          + Nat.max 10 (String.length (numeral (num_usos_traslado u)))
          + Nat.max 10 (String.length (numeral (num_usos_circular u)))
          + Nat.max 10 (String.length (numeral (num_usos_totales u))))%nat
    /\ (String.length "   Usuario Traslados  Circular     Total"
        <= String.length linea)%nat
    /\ (String.length " ========= ========= ========= ========="
        <= String.length linea)%nat
    /\ ((String.length (numeral (id u)) <= 10)%nat ->
        (String.length (numeral (num_usos_traslado u)) <= 10)%nat ->
        (String.length (numeral (num_usos_circular u)) <= 10)%nat ->
        (String.length (numeral (num_usos_totales u)) <= 10)%nat ->
        String.length linea = 40%nat).
Proof.
  intros Hu. exists (fila u). split; [by apply mostrar_usuario_corto|].
  split; [unfold fila, columna; by rewrite !string_app_assoc|].
  unfold fila. rewrite !string_length_append, !length_columna.
  change (String.length "   Usuario Traslados  Circular     Total") with 40%nat.
  change (String.length " ========= ========= ========= =========") with 40%nat.
  repeat split; lia.
Qed.

Lemma mostrar_usuario_ancho_testigo :
  usuario_corto (mkUsuarioBizi 53535 12345678901 2)
  /\ exists linea,
       mostrar_usuario (mkUsuarioBizi 53535 12345678901 2) = ([linea], None)
       /\ linea =
            (espacios (10 - String.length (numeral 53535))
               ++ numeral 53535
               ++ espacios (10 - String.length (numeral 12345678901))
               ++ numeral 12345678901
               ++ espacios (10 - String.length (numeral 2))
               ++ numeral 2
               ++ espacios (10 - String.length (numeral (12345678901 + 2)))
               ++ numeral (12345678901 + 2))%string
       /\ String.length linea =
            (Nat.max 10 (String.length (numeral 53535))
             + Nat.max 10 (String.length (numeral 12345678901))
             + Nat.max 10 (String.length (numeral 2))
             + Nat.max 10 (String.length (numeral (12345678901 + 2))))%nat
       /\ (String.length "   Usuario Traslados  Circular     Total"
           <= String.length linea)%nat
       /\ (String.length " ========= ========= ========= ========="
           <= String.length linea)%nat
       /\ ((String.length (numeral 53535) <= 10)%nat ->
           (String.length (numeral 12345678901) <= 10)%nat ->
           (String.length (numeral 2) <= 10)%nat ->
           (String.length (numeral (12345678901 + 2)) <= 10)%nat ->
           String.length linea = 40%nat).
Proof.
  assert (H : usuario_corto (mkUsuarioBizi 53535 12345678901 2)).
  { unfold usuario_corto, num_usos_totales, corto. cbn [id num_usos_traslado
      num_usos_circular]. pose proof LIMITE_grande as HL.
    assert (100000000000000 <= LIMITE).
    { unfold LIMITE. change 100000000000000 with (10 ^ 14).
      apply Z.pow_le_mono_r; lia. }
    lia. }
  split; [exact H|].
  exact (mostrar_usuario_ancho (mkUsuarioBizi 53535 12345678901 2) H).
Defined.

Example ejemplo_mostrar_usuario :
  mostrar_usuario (mkUsuarioBizi 53535 12345678901 2)
  = (["     5353512345678901         212345678903"%string], None).
Proof. by vm_compute. Qed.

Lemma identificador_largo t c : ~ usuario_corto (mkUsuarioBizi LIMITE t c).
Proof.
  unfold usuario_corto, corto. cbn [id]. pose proof LIMITE_grande. lia.
Qed.

Example ejemplo_mostrar_usuario_largo :
  mostrar_usuario (mkUsuarioBizi LIMITE 1 2) = ([], Some ValueError).
Proof. apply mostrar_usuario_largo, identificador_largo. Qed.

Lemma take_rango {A} (l : list A) k :
  take (Z.to_nat (Z.min k (len l))) l = take (Z.to_nat k) l.
Proof.
  unfold len. destruct (Z.le_gt_cases k (Z.of_nat (length l))).
  - by rewrite Z.min_l.
  - rewrite Z.min_r by lia. rewrite Nat2Z.id. rewrite !take_ge; [done|lia|lia].
Qed.

(** The loop of [mostrar] over [n] records from index [a] on: it writes
    their rows, and stops at the first one that cannot be written. *)
Lemma mostrar_para_seqZ l (n : nat) : forall a,
  0 <= a -> a + Z.of_nat n <= len l ->
  (Forall usuario_corto (take n (drop (Z.to_nat a) l)) ->
   mostrar_para l (seqZ a (Z.of_nat n))
   = (fila <$> take n (drop (Z.to_nat a) l), None))
  /\ (forall antes u despues,
        take n (drop (Z.to_nat a) l) = antes ++ u :: despues ->
        Forall usuario_corto antes -> ~ usuario_corto u ->
        mostrar_para l (seqZ a (Z.of_nat n))
        = (fila <$> antes, Some ValueError)).
Proof.
  induction n as [|n IH]; intros a Ha Hn.
  - split; [done|]. intros antes u despues Habs. by destruct antes.
  - rewrite seqZ_cons by lia. cbn [mostrar_para].
    destruct (getitem_en_rango l a) as (u0 & Hl & ->); [lia|].
    replace (Z.pred (Z.of_nat (S n))) with (Z.of_nat n) by lia.
    rewrite (drop_S l u0 (Z.to_nat a) Hl). cbn [take].
    destruct (IH (Z.succ a)) as [IH1 IH2]; [lia|lia|].
    replace (Z.to_nat (Z.succ a)) with (S (Z.to_nat a)) in IH1, IH2 by lia.
    split.
    + intros [Hu0 Hresto]%Forall_cons.
      by rewrite (mostrar_usuario_corto u0 Hu0), (IH1 Hresto).
    + intros [|v antes] u despues Heq Hantes Hu.
      * injection Heq as -> _. by rewrite (mostrar_usuario_largo u Hu).
      * injection Heq as -> Heq. apply Forall_cons in Hantes as [Hv Hantes].
        by rewrite (mostrar_usuario_corto v Hv), (IH2 antes u despues Heq Hantes Hu).
Qed.

Lemma mostrar_para_rango l k :
  (Forall usuario_corto (take (Z.to_nat k) l) ->
   mostrar_para l (range 0 (Z.min k (len l)))
   = (fila <$> take (Z.to_nat k) l, None))
  /\ (forall antes u despues,
        take (Z.to_nat k) l = antes ++ u :: despues ->
        Forall usuario_corto antes -> ~ usuario_corto u ->
        mostrar_para l (range 0 (Z.min k (len l)))
        = (fila <$> antes, Some ValueError)).
Proof.
  pose proof (len_nonneg l) as Hl. unfold range. rewrite Z.sub_0_r.
  rewrite <- (take_rango l k).
  remember (Z.to_nat (Z.min k (len l))) as n eqn:Hn.
  destruct (Z.le_gt_cases (Z.min k (len l)) 0) as [Hneg|Hpos].
  - rewrite seqZ_nil by done. replace n with 0%nat by lia.
    split; [done|]. intros antes u despues Habs. by destruct antes.
  - replace (Z.min k (len l)) with (Z.of_nat n) by lia.
    pose proof (mostrar_para_seqZ l n 0) as H.
    change (Z.to_nat 0) with 0%nat in H. rewrite drop_0 in H.
    apply H; lia.
Qed.

(** [mostrar] when every record shown can be written, and when one of
    them cannot. *)
Lemma mostrar_cortos l k :
  corto (len l) -> Forall usuario_corto (take (Z.to_nat k) l) ->
  mostrar l k =
    ([""%string;
      ("Número usuarios distintos: " ++ numeral (len l))%string;
      ""%string;
      "   Usuario Traslados  Circular     Total"%string;
      " ========= ========= ========= ========="%string]
       ++ (fila <$> take (Z.to_nat k) l), None).
Proof.
  intros Hlen Hcortos. unfold mostrar. rewrite (str_corto _ Hlen).
  by rewrite (proj1 (mostrar_para_rango l k) Hcortos).
Qed.

Lemma mostrar_largo l k antes u despues :
  corto (len l) -> take (Z.to_nat k) l = antes ++ u :: despues ->
  Forall usuario_corto antes -> ~ usuario_corto u ->
  mostrar l k =
    ([""%string;
      ("Número usuarios distintos: " ++ numeral (len l))%string;
      ""%string;
      "   Usuario Traslados  Circular     Total"%string;
      " ========= ========= ========= ========="%string]
       ++ (fila <$> antes), Some ValueError).
Proof.
  intros Hlen Heq Hantes Hu. unfold mostrar. rewrite (str_corto _ Hlen).
  by rewrite (proj2 (mostrar_para_rango l k) antes u despues Heq Hantes Hu).
Qed.

Lemma usuario_corto_pequeno u :
  -10000 < id u < 10000 ->
  0 <= num_usos_traslado u < 5000 -> 0 <= num_usos_circular u < 5000 ->
  usuario_corto u.
Proof.
  intros Hi Ht Hc. unfold usuario_corto, num_usos_totales.
  repeat apply conj; apply corto_pequeno; lia.
Qed.

(** X22.  [mostrar] writes the five heading lines, the second one giving
    the number of users, and then the rows of the first [num_mostrar] users
    in list order, all of them when there are fewer and none when
    [num_mostrar] is not positive.  It ends without an exception when [str]
    converts the four integers of each of those users.  Otherwise it raises
    [ValueError] at the first of them that has an integer beyond the limit
    of [str], after the heading and the rows of the users before that one
    have been written. *)
Theorem mostrar_filas l k :
  corto (len l) ->
  (Forall usuario_corto (take (Z.to_nat k) l) ->
   mostrar l k =
     ([""%string;
       ("Número usuarios distintos: " ++ numeral (len l))%string;
       ""%string;
       "   Usuario Traslados  Circular     Total"%string;
       " ========= ========= ========= ========="%string]
        ++ (fila <$> take (Z.to_nat k) l), None)
   /\ length (fst (mostrar l k))
      = (5 + Z.to_nat (Z.max 0 (Z.min k (len l))))%nat)
  /\ (forall antes u despues,
        take (Z.to_nat k) l = antes ++ u :: despues ->
        Forall usuario_corto antes -> ~ usuario_corto u ->
        mostrar l k =
          ([""%string;
            ("Número usuarios distintos: " ++ numeral (len l))%string;
            ""%string;
            "   Usuario Traslados  Circular     Total"%string;
            " ========= ========= ========= ========="%string]
             ++ (fila <$> antes), Some ValueError)).
Proof.
  intros Hlen. pose proof (len_nonneg l) as Hn. split.
  - intros Hcortos. rewrite (mostrar_cortos l k Hlen Hcortos). split; [done|].
    cbn [fst]. rewrite length_app, length_fmap, length_take.
    unfold len. cbn [length]. lia.
  - intros antes u despues. by apply mostrar_largo.
Qed.

Lemma corto_len_registro_ejemplo : corto (len registro_ejemplo).
Proof. apply corto_pequeno. change (len registro_ejemplo) with 3. lia. Defined.

Lemma mostrar_filas_testigo :
  corto (len registro_ejemplo)
  /\ (Forall usuario_corto (take (Z.to_nat 2) registro_ejemplo) ->
      mostrar registro_ejemplo 2 =
        ([""%string;
          ("Número usuarios distintos: " ++ numeral (len registro_ejemplo))%string;
          ""%string;
          "   Usuario Traslados  Circular     Total"%string;
          " ========= ========= ========= ========="%string]
           ++ (fila <$> take (Z.to_nat 2) registro_ejemplo), None)
      /\ length (fst (mostrar registro_ejemplo 2))
         = (5 + Z.to_nat (Z.max 0 (Z.min 2 (len registro_ejemplo))))%nat)
  /\ (forall antes u despues,
        take (Z.to_nat 2) registro_ejemplo = antes ++ u :: despues ->
        Forall usuario_corto antes -> ~ usuario_corto u ->
        mostrar registro_ejemplo 2 =
          ([""%string;
            ("Número usuarios distintos: " ++ numeral (len registro_ejemplo))%string;
            ""%string;
            "   Usuario Traslados  Circular     Total"%string;
            " ========= ========= ========= ========="%string]
             ++ (fila <$> antes), Some ValueError)).
Proof.
  split; [exact corto_len_registro_ejemplo|].
  exact (mostrar_filas registro_ejemplo 2 corto_len_registro_ejemplo).
Defined.

Example ejemplo_mostrar :
  mostrar registro_ejemplo 2
  = ([""; "Número usuarios distintos: 3"; "";
      "   Usuario Traslados  Circular     Total";
      " ========= ========= ========= =========";
      "        10         1         1         2";
      "        20         0         1         1"]%string, None).
Proof.
  rewrite mostrar_cortos; [done|exact corto_len_registro_ejemplo|].
  repeat (apply List.Forall_cons;
          [apply usuario_corto_pequeno; simpl; lia|]).
  apply List.Forall_nil.
Qed.

(** The heading and the first row are written before the second record,
    whose identifier is beyond the limit of [str], ends the call. *)
Example ejemplo_mostrar_largo :
  mostrar [mkUsuarioBizi 10 1 1; mkUsuarioBizi LIMITE 0 1; mkUsuarioBizi 30 2 0] 3
  = ([""; "Número usuarios distintos: 3"; "";
      "   Usuario Traslados  Circular     Total";
      " ========= ========= ========= =========";
      "        10         1         1         2"]%string, Some ValueError).
Proof.
  rewrite (mostrar_largo _ 3 [mkUsuarioBizi 10 1 1] (mkUsuarioBizi LIMITE 0 1)
             [mkUsuarioBizi 30 2 0]).
  - done.
  - apply corto_pequeno. unfold len. cbn [length]. lia.
  - done.
  - apply List.Forall_cons; [|apply List.Forall_nil].
    apply usuario_corto_pequeno; simpl; lia.
  - apply identificador_largo.
Qed.

(** ** The records of a registry read from a file can be written *)

Lemma cuentas_cotas x usos :
  0 <= traslados_de x usos /\ 0 <= circulares_de x usos
  /\ traslados_de x usos + circulares_de x usos <= Z.of_nat (length usos).
Proof.
  induction usos as [|uso resto IH]; [simpl; lia|].
  cbn [traslados_de circulares_de length]. rewrite Nat2Z.inj_succ.
  destruct (id_usuario uso =? x),
           (estacion_retirada uso =? estacion_devolucion uso); simpl; lia.
Qed.

Lemma registro_de_miembro l u :
  creciente l -> u ∈ l -> registro_de l (id u) = Some u.
Proof.
  induction l as [|v l IH]; intros Hs Hu; [by apply elem_of_nil in Hu|].
  apply creciente_cons_inv in Hs as [Hs Hv]. cbn [registro_de].
  apply elem_of_cons in Hu as [->|Hu]; [by rewrite Z.eqb_refl|].
  rewrite Forall_forall in Hv. specialize (Hv u Hu).
  destruct (Z.eqb_spec (id v) (id u)); [lia|]. by apply IH.
Qed.

Lemma registro_cortos l usos :
  creciente l ->
  (forall x, registro_de l x = acumulado (registro_de [] x) x usos) ->
  Forall (fun uso => corto (id_usuario uso)) usos ->
  Z.of_nat (length usos) < LIMITE ->
  Forall usuario_corto l /\ corto (len l).
Proof.
  intros Hs Hreg Hids Hlen. split.
  - apply Forall_forall. intros u Hu.
    pose proof (registro_de_miembro l u Hs Hu) as Hru.
    rewrite Hreg in Hru. unfold acumulado in Hru. cbn [registro_de] in Hru.
    destruct (bool_decide (id u ∈ id_usuario <$> usos)) eqn:Hin; [|done].
    apply bool_decide_eq_true_1 in Hin.
    apply list_elem_of_fmap in Hin as (uso & Hid & Huso).
    rewrite Forall_forall in Hids. specialize (Hids uso Huso).
    rewrite <- Hid in Hids.
    destruct (cuentas_cotas (id u) usos) as (Ht & Hc & Htc).
    injection Hru as <-. unfold usuario_corto, num_usos_totales.
    cbn [id num_usos_traslado num_usos_circular].
    split; [done|]. unfold corto. lia.
  - destruct (registro_distintos l usos Hs Hreg) as [_ Hdistintos].
    assert (length (remove_dups (id_usuario <$> usos)) <= length usos)%nat.
    { rewrite <- (length_fmap id_usuario usos).
      apply submseteq_length, NoDup_submseteq; [apply NoDup_remove_dups|].
      intros x. by rewrite elem_of_remove_dups. }
    unfold corto, len. lia.
Qed.

Section FicherosPropiedades.

Variable int : string -> option Z.
Variable open_utf8 : string -> option (list string).

(** X23.  The whole program on a readable file whose lines are all
    events: the registry is built and ordered without an exception, and
    each of the first [NUM_MOSTRAR] users of the ordered registry has at
    least as many uses as every user that comes after.  When moreover [str]
    converts the identifiers of the events and the number of lines is below
    its limit, the program writes the heading with the number of distinct
    users, then the rows of at most [NUM_MOSTRAR] users taken from the
    front of the ordered registry, and ends without an exception. *)
Theorem usos_por_usuario_correcto nombre f usos :
  open_utf8 nombre = Some f ->
  Forall2 (fun linea uso => convertir int linea = Ok uso) (tail f) usos ->
  exists usuarios ordenados,
    obtener_usos_por_usuario_from_file int f = Ok usuarios
    /\ ordenar usuarios NUM_MOSTRAR = Ok ordenados
    /\ ordenados ≡ₚ usuarios
    /\ (forall (i j : nat) ui uj,
          (i < 15)%nat -> (i <= j)%nat ->
          ordenados !! i = Some ui -> ordenados !! j = Some uj ->
          num_usos_totales uj <= num_usos_totales ui)
    /\ (Forall (fun uso => corto (id_usuario uso)) usos ->
        Z.of_nat (length usos) < LIMITE ->
        usos_por_usuario int open_utf8 nombre =
          ([""%string;
            ("Número usuarios distintos: "
               ++ numeral
                    (Z.of_nat (length (remove_dups (id_usuario <$> usos)))))%string;
            ""%string;
            "   Usuario Traslados  Circular     Total"%string;
            " ========= ========= ========= ========="%string]
             ++ (fila <$> take 15 ordenados), None)).
Proof.
  intros Hopen Hconv.
  destruct (para_cada_linea_registro int (tail f) usos [] Hconv creciente_nil)
    as (usuarios & Husuarios & Hs & Hreg).
  destruct (registro_distintos usuarios usos Hs Hreg) as [_ Hdistintos].
  fold (obtener_usos_por_usuario_from_file int f) in Husuarios.
  destruct (ordenar_total usuarios NUM_MOSTRAR) as (ordenados & Hord & Hfijo & Hperm).
  assert (Hlen : len ordenados = len usuarios).
  { unfold len. by rewrite (Permutation_length Hperm). }
  exists usuarios, ordenados. do 3 (split; [done|]). split.
  - intros i j ui uj Hi Hij Hui Huj.
    pose proof (lookup_lt_Some _ _ _ Hui) as Hilt.
    pose proof (lookup_lt_Some _ _ _ Huj) as Hjlt.
    apply (Hfijo (Z.of_nat i) (Z.of_nat j) ui uj); rewrite ?Nat2Z.id; try done.
    + rewrite <- Hlen. unfold NUM_MOSTRAR, len. lia.
    + unfold len. lia.
  - intros Hids Hlineas.
    destruct (registro_cortos usuarios usos Hs Hreg Hids Hlineas)
      as [Hcortos Hcuantos].
    unfold usos_por_usuario, obtener_usos_por_usuario.
    rewrite Hopen, Husuarios, Hord.
    rewrite mostrar_cortos.
    + cbn [option_map]. rewrite Hlen. unfold len. by rewrite Hdistintos.
    + by rewrite Hlen.
    + apply Forall_take. by rewrite Hperm.
Qed.

(** X24.  When the file cannot be opened, or one of its lines after the header
    is malformed, nothing at all is written, not even the heading, and the
    call ends with the exception: [OSError], or the one [convertir] raised
    on the first malformed line. *)
Theorem usos_por_usuario_falla nombre :
  (open_utf8 nombre = None
   \/ exists cabecera lineas,
        open_utf8 nombre = Some (cabecera :: lineas)
        /\ Exists (mal_formada int) lineas) ->
  exists e,
    usos_por_usuario int open_utf8 nombre = ([], Some e)
    /\ (open_utf8 nombre = None -> e = OSError)
    /\ (forall f, open_utf8 nombre = Some f ->
          exists e', e = Propagada e'
            /\ obtener_usos_por_usuario_from_file int f = Raise e').
Proof.
  unfold usos_por_usuario, obtener_usos_por_usuario.
  intros [Hopen|(cabecera & lineas & Hopen & Hmal)]; rewrite Hopen.
  - exists OSError. split; [done|]. split; [done|]. intros f Hf. discriminate.
  - destruct (primera_mal_formada int lineas Hmal)
      as (antes & mala & despues & -> & Hantes & Hmala).
    apply convertir_mal_formada in Hmala as [e Hmala].
    assert (He : obtener_usos_por_usuario_from_file int
                   (cabecera :: antes ++ mala :: despues) = Raise e).
    { unfold obtener_usos_por_usuario_from_file. simpl.
      by apply para_cada_linea_aborta; [apply creciente_nil| |]. }
    rewrite He. exists (Propagada e). split; [done|]. split; [discriminate|].
    intros f [= <-]. by exists e.
Qed.

End FicherosPropiedades.

(** ** The program on a sample disk *)

Lemma usos_por_usuario_correcto_testigo :
  (disco_ejemplo "datos/pruebas.csv" = Some fichero_ejemplo
   /\ Forall2 (fun linea uso => convertir int_decimal linea = Ok uso)
        (tail fichero_ejemplo)
        [mkUsoBizi 10 5 5; mkUsoBizi 10 5 9; mkUsoBizi 20 1 1])
  /\ exists usuarios ordenados,
       obtener_usos_por_usuario_from_file int_decimal fichero_ejemplo = Ok usuarios
       /\ ordenar usuarios NUM_MOSTRAR = Ok ordenados
       /\ ordenados ≡ₚ usuarios
       /\ (forall (i j : nat) ui uj,
             (i < 15)%nat -> (i <= j)%nat ->
             ordenados !! i = Some ui -> ordenados !! j = Some uj ->
             num_usos_totales uj <= num_usos_totales ui)
       /\ (Forall (fun uso => corto (id_usuario uso))
             [mkUsoBizi 10 5 5; mkUsoBizi 10 5 9; mkUsoBizi 20 1 1] ->
           Z.of_nat (length [mkUsoBizi 10 5 5; mkUsoBizi 10 5 9;
                             mkUsoBizi 20 1 1]) < LIMITE ->
           usos_por_usuario int_decimal disco_ejemplo "datos/pruebas.csv" =
             ([""%string;
               ("Número usuarios distintos: "
                  ++ numeral
                       (Z.of_nat
                          (length
                             (remove_dups
                                (id_usuario <$>
                                   [mkUsoBizi 10 5 5; mkUsoBizi 10 5 9;
                                    mkUsoBizi 20 1 1])))))%string;
               ""%string;
               "   Usuario Traslados  Circular     Total"%string;
               " ========= ========= ========= ========="%string]
                ++ (fila <$> take 15 ordenados), None)).
Proof.
  assert (H : Forall2 (fun linea uso => convertir int_decimal linea = Ok uso)
                (tail fichero_ejemplo)
                [mkUsoBizi 10 5 5; mkUsoBizi 10 5 9; mkUsoBizi 20 1 1])
    by (unfold fichero_ejemplo; simpl; repeat constructor).
  split; [exact (conj eq_refl H)|].
  exact (usos_por_usuario_correcto int_decimal disco_ejemplo
           "datos/pruebas.csv" fichero_ejemplo _ eq_refl H).
Defined.

(** The events of the sample file meet the two conditions under which the
    rows can be written. *)
Lemma usos_ejemplo_cortos :
  Forall (fun uso => corto (id_usuario uso))
    [mkUsoBizi 10 5 5; mkUsoBizi 10 5 9; mkUsoBizi 20 1 1]
  /\ Z.of_nat (length [mkUsoBizi 10 5 5; mkUsoBizi 10 5 9; mkUsoBizi 20 1 1])
     < LIMITE.
Proof.
  split.
  - repeat (apply List.Forall_cons;
            [apply corto_pequeno; cbn [id_usuario]; lia|]).
    apply List.Forall_nil.
  - pose proof LIMITE_grande. cbn [length]. lia.
Qed.

Example usos_por_usuario_ejemplo :
  usos_por_usuario int_decimal disco_ejemplo "datos/pruebas.csv"
  = ([""; "Número usuarios distintos: 2"; "";
      "   Usuario Traslados  Circular     Total";
      " ========= ========= ========= =========";
      "        10         1         1         2";
      "        20         0         1         1"]%string, None).
Proof.
  assert (Hord : ordenar [mkUsuarioBizi 10 1 1; mkUsuarioBizi 20 0 1] NUM_MOSTRAR
                 = Ok [mkUsuarioBizi 10 1 1; mkUsuarioBizi 20 0 1])
    by (by vm_compute).
  assert (Hobt : obtener_usos_por_usuario int_decimal disco_ejemplo
                   "datos/pruebas.csv"
                 = Bien [mkUsuarioBizi 10 1 1; mkUsuarioBizi 20 0 1])
    by (by vm_compute).
  unfold usos_por_usuario. rewrite Hobt. cbv beta iota.
  rewrite Hord. cbv beta iota.
  rewrite mostrar_cortos; [done|apply corto_pequeno; by vm_compute|].
  repeat (apply List.Forall_cons;
          [apply usuario_corto_pequeno; simpl; lia|]).
  apply List.Forall_nil.
Qed.

Lemma usos_por_usuario_falla_testigo :
  (disco_ejemplo "datos/nada.csv" = None
   \/ exists cabecera lineas,
        disco_ejemplo "datos/nada.csv" = Some (cabecera :: lineas)
        /\ Exists (mal_formada int_decimal) lineas)
  /\ exists e,
       usos_por_usuario int_decimal disco_ejemplo "datos/nada.csv" = ([], Some e)
       /\ (disco_ejemplo "datos/nada.csv" = None -> e = OSError)
       /\ (forall f, disco_ejemplo "datos/nada.csv" = Some f ->
             exists e', e = Propagada e'
               /\ obtener_usos_por_usuario_from_file int_decimal f = Raise e').
Proof.
  assert (H : disco_ejemplo "datos/nada.csv" = None
              \/ exists cabecera lineas,
                   disco_ejemplo "datos/nada.csv" = Some (cabecera :: lineas)
                   /\ Exists (mal_formada int_decimal) lineas)
    by (left; reflexivity).
  split; [exact H|].
  exact (usos_por_usuario_falla int_decimal disco_ejemplo "datos/nada.csv" H).
Defined.
